(** * Intrinsic dimension of embedding sets: the notebook [intrinsic_dim.ipynb]

    A shallow embedding of the notebook's five functions
    ([get_embeddings], [compute_persistent_score], [sample_and_score],
    [estimate_dimension], [estimate_sequence_dimension]) and the properties
    of them that the specification states.

    Conventions.
    - Python [int] is [Z]; [//] on ints is floor division, which is [Z.div].
    - [np.float64] is Rocq's primitive [float] (IEEE 754 binary64).
    - A raised exception is the [Raise] case of [result]; code that draws
      from numpy's process-global generator threads the generator state.
    - Library calls (numpy, scipy, scikit-learn, torch) are not part of the
      notebook; each is modelled by a definition whose comment says what it
      stands for, or is taken as an operation of a type class. *)

From Stdlib Require Import ZArith List Lia Bool Arith Permutation Sorted FinFun.
From Stdlib Require String Ascii.
From Stdlib Require Import Floats.
Import ListNotations.

Set Implicit Arguments.
Local Open Scope Z_scope.

(* ================================================================== *)
(** * Part I: the program *)
(* ================================================================== *)

(** ** Python plumbing: exceptions, ranges, the state-and-exception monad *)

Module Py.

Inductive exn : Type :=
| ValueError
| IndexError
| KeyError
| OSError.

Inductive result (A : Type) : Type :=
| Ok (a : A)
| Raise (e : exn).

Arguments Ok {A} a.
Arguments Raise {A} e.

(** [range(a, b)]: empty when [b <= a]. *)
Definition range (a b : Z) : list Z :=
  map (fun i => a + Z.of_nat i) (seq 0 (Z.to_nat (b - a))).

(** A computation that reads and advances a state [S] and may raise; the
    state at the time of the raise is kept, as a Python global is. *)
Definition M (S A : Type) : Type := S -> result A * S.

Definition ret {S A} (a : A) : M S A := fun s => (Ok a, s).

Definition bind {S A B} (m : M S A) (f : A -> M S B) : M S B :=
  fun s => match m s with
           | (Ok a, s') => f a s'
           | (Raise e, s') => (Raise e, s')
           end.

Definition lift {S A} (r : result A) : M S A := fun s => (r, s).

(** [[f(x) for x in xs]] and [for x in xs: out.append(f(x))]: the calls run
    left to right and the first raise ends the loop. *)
Fixpoint for_each {S A B} (xs : list A) (f : A -> M S B) : M S (list B) :=
  match xs with
  | [] => ret []
  | x :: xs' => bind (f x) (fun y => bind (for_each xs' f) (fun ys => ret (y :: ys)))
  end.

(** [for x in xs: acc = body(x, acc)]: a loop that updates a local. *)
Fixpoint for_loop {S A B} (xs : list A) (body : A -> B -> M S B) (acc : B) : M S B :=
  match xs with
  | [] => ret acc
  | x :: xs' => bind (body x acc) (for_loop xs' body)
  end.

End Py.

Import Py.

Declare Scope py_scope.
Delimit Scope py_scope with py.
Notation "x <- m ;; k" := (bind m (fun x => k))
  (at level 61, m at next level, right associativity) : py_scope.
Local Open Scope py_scope.

(** ** The numeric interfaces *)

(** The arithmetic of scores: a zero, an addition, a comparison, and
    the test [wnull] for the values that, as an entry of a dense graph,
    stand for "no edge" when scipy converts it to a sparse one. *)
Class Weight (W : Type) : Type := {
  w0 : W;
  wadd : W -> W -> W;
  wleb : W -> W -> bool;
  wnull : W -> bool
}.

(** Exact arithmetic: the comparison is a total order and the addition
    is commutative and associative. (float64 has the order on the numbers
    it holds; its addition rounds, and is not associative.) *)
Class WeightLaws (W : Type) `{Weight W} : Prop := {
  wleb_total : forall a b, wleb a b = true \/ wleb b a = true;
  wleb_trans : forall a b c, wleb a b = true -> wleb b c = true -> wleb a c = true;
  wleb_antisym : forall a b, wleb a b = true -> wleb b a = true -> a = b;
  wadd_comm : forall a b, wadd a b = wadd b a;
  wadd_assoc : forall a b c, wadd a (wadd b c) = wadd (wadd a b) c
}.

(** One entry of [scipy.spatial.distance_matrix(x, y)]: the Euclidean
    distance between a row of [x] and a row of [y]. *)
Class Metric (P W : Type) : Type := {
  dist : P -> P -> W
}.

(** [np.median] of a Python list of scores. *)
Class Median (W : Type) : Type := {
  np_median : list W -> W
}.

(** numpy's global [RandomState]: [seed s] is the state
    [np.random.seed(s)] sets, and [permutation g n] is
    [np.random.permutation(n)] drawn in state [g], with the state after. *)
Class RandomState (G : Type) : Type := {
  seed : Z -> G;
  permutation : G -> nat -> list nat * G
}.

(** What [np.random.permutation(n)] returns is a permutation of
    [range(n)]. *)
Class RandomStateLaws (G : Type) `{RandomState G} : Prop := {
  permutation_perm :
    forall g n, Permutation (seq 0 n) (fst (permutation g n))
}.

(** ** The MST Persistence Scorer: [compute_persistent_score] *)

Module Scorer.
Section Defs.
Context {P W : Type} `{Weight W} `{Metric P W}.

(** [distance_matrix(x, y)]: row [i], column [j] holds [dist x_i y_j]. *)
Definition distance_matrix (x y : list P) : list (list W) :=
  map (fun xi => map (fun yj => dist xi yj) y) x.

(** A stored entry of a sparse graph: row, column, weight. *)
Definition edge : Type := (nat * nat * W)%type.
Definition src (e : edge) : nat := fst (fst e).
Definition dst (e : edge) : nat := snd (fst e).
Definition weight (e : edge) : W := snd e.

(** [l] with the position of each element. *)
Definition enumerate {A} (l : list A) : list (nat * A) :=
  combine (seq 0 (length l)) l.

(** The dense-to-sparse conversion [minimum_spanning_tree] applies to its
    argument ([csgraph_from_dense] with [null_value=0]): the entries that
    are not null, in row-major order. *)
Definition csr_entries (m : list (list W)) : list edge :=
  flat_map (fun ir : nat * list W =>
              flat_map (fun jw : nat * W =>
                          if wnull (snd jw) then []
                          else [(fst ir, fst jw, snd jw)])
                       (enumerate (snd ir)))
           (enumerate m).

(** [np.argsort(data)]: the entries by increasing weight. numpy leaves
    the order among equal weights open; this insertion sort keeps the
    stored order, and [ScorerFacts.kruskal_tie_order] shows that the
    weights kept are the same for every other choice. *)
Fixpoint insert_edge (e : edge) (l : list edge) : list edge :=
  match l with
  | [] => [e]
  | x :: t => if wleb (weight e) (weight x) then e :: x :: t
              else x :: insert_edge e t
  end.

Definition argsort (l : list edge) : list edge :=
  fold_right insert_edge [] l.

(** Union-find, as the label of the component of every vertex (scipy
    keeps a forest of predecessors; only which vertices are together
    is read from it). *)
Definition uf : Type := nat -> nat.
Definition uf_init : uf := fun v => v.
Definition uf_union (c : uf) (a b : nat) : uf :=
  let la := c a in
  let lb := c b in
  fun v => let l := c v in if Nat.eqb l la then lb else l.

(** Kruskal's loop over the sorted entries, each entry [(i, j, w)] an
    edge between the rows [i] and [j]: an entry is kept when its end
    points lie in different components, which it then joins. *)
Fixpoint kruskal (c : uf) (es : list edge) : list edge :=
  match es with
  | [] => []
  | e :: t =>
      if Nat.eqb (c (src e)) (c (dst e)) then kruskal c t
      else e :: kruskal (uf_union c (src e) (dst e)) t
  end.

Definition same_position (e f : edge) : bool :=
  Nat.eqb (src e) (src f) && Nat.eqb (dst e) (dst f).

(** [scipy.sparse.csgraph.minimum_spanning_tree(m)]: the sparse matrix
    that keeps, of the entries of [m], those Kruskal's loop selected
    (the others are zeroed and eliminated); the entries stay in
    row-major order. *)
Definition minimum_spanning_tree (m : list (list W)) : list edge :=
  let entries := csr_entries m in
  let kept := kruskal uf_init (argsort entries) in
  filter (fun e => existsb (same_position e) kept) entries.

(** [mst.sum()]: the sum of the stored entries. *)
Definition csr_sum (t : list edge) : W :=
  fold_left wadd (map weight t) w0.

(** [compute_persistent_score(embeddings)], notebook lines 71-83. *)
Definition compute_persistent_score (embeddings : list P) : W :=
  let dist_matrix := distance_matrix embeddings embeddings in
  let mst := minimum_spanning_tree dist_matrix in
  csr_sum mst.

(** *** Vocabulary of the proofs about the scorer *)

(** [e] is not heavier than [f]. *)
Definition lew (e f : edge) : Prop := wleb (weight e) (weight f) = true.

(** Two labellings that put the same vertices together. *)
Definition uf_equiv (c c' : uf) : Prop :=
  forall u v, c u = c v <-> c' u = c' v.

(** An entry with its end points renamed. *)
Definition relabel (f : nat -> nat) (e : edge) : edge :=
  (f (src e), f (dst e), weight e).

(** Lists that differ by exchanges of neighbours of equal weight. *)
Inductive swap_eq : list edge -> list edge -> Prop :=
| swap_refl l : swap_eq l l
| swap_skip e l l' : swap_eq l l' -> swap_eq (e :: l) (e :: l')
| swap_here e f l : weight e = weight f -> swap_eq (e :: f :: l) (f :: e :: l)
| swap_trans l1 l2 l3 : swap_eq l1 l2 -> swap_eq l2 l3 -> swap_eq l1 l3.

End Defs.
End Scorer.

(** ** The Subsampler: [sample_and_score] *)

Module Subsampler.
Section Defs.
Context {P W G : Type} `{Weight W} `{Metric P W} `{Median W} `{RandomState G}.


(** [np.random.choice(a, size, replace=False)] for ints [a] and [size]:
    [ValueError] when the sample is larger than the population or
    [size] is negative, before anything is drawn; otherwise the first
    [size] entries of a random permutation of [range(a)]. *)
Definition np_random_choice (a size : Z) : M G (list nat) :=
  fun g =>
    if (size >? a) || (size <? 0) then (Raise ValueError, g)
    else let (p, g') := permutation g (Z.to_nat a) in
         (Ok (firstn (Z.to_nat size) p), g').

(** [embeddings[idx]] for an index array: the rows at [idx], or
    [IndexError] when an index is out of bounds. *)
Fixpoint take_rows (embeddings : list P) (idx : list nat) : result (list P) :=
  match idx with
  | [] => Ok []
  | i :: idx' =>
      match nth_error embeddings i with
      | None => Raise IndexError
      | Some row =>
          match take_rows embeddings idx' with
          | Ok rows => Ok (row :: rows)
          | Raise e => Raise e
          end
      end
  end.

(** Notebook line 108:
    [[(i - 1) * (n - hat_n) // k + hat_n for i in range(1, k + 1)]]. *)
Definition sample_sizes (n k hat_n : Z) : list Z :=
  map (fun i => (i - 1) * (n - hat_n) / k + hat_n) (range 1 (k + 1)).

(** One draw, line 111:
    [compute_persistent_score(embeddings[np.random.choice(n, size, replace=False)])]. *)
Definition draw_score (embeddings : list P) (n size : Z) : M G W :=
  idx <- np_random_choice n size ;;
  rows <- lift (take_rows embeddings idx) ;;
  ret (Scorer.compute_persistent_score rows).

(** [sample_and_score(embeddings, n, k, hat_n, J)], notebook lines 92-115. *)
Definition sample_and_score (embeddings : list P) (n k hat_n J : Z)
  : M G (list Z * list W) :=
  let sizes := sample_sizes n k hat_n in
  scores <- for_each sizes (fun size =>
              subset_scores <- for_each (range 0 J)
                                 (fun _ => draw_score embeddings n size) ;;
              ret (np_median subset_scores)) ;;
  ret (sizes, scores).

(** The defaults of the signature: [k=8, hat_n=40, J=7]. *)
Definition default_k : Z := 8.
Definition default_hat_n : Z := 40.
Definition default_J : Z := 7.

End Defs.
End Subsampler.

(** ** float64 helpers *)

Module F64.

(** An [int] converted to float64, rounded to nearest-even. *)
Definition of_Z (z : Z) : float :=
  SF2Prim (binary_normalize prec emax z 0 false).

Definition all_finite (l : list float) : bool := forallb is_finite l.

(** Left-to-right float sum. *)
Definition sum (l : list float) : float := fold_left PrimFloat.add l 0%float.

(** [np.mean] of a list of floats: the sum over the count (numpy adds
    fewer than eight numbers left to right); [nan] for the empty list. *)
Definition np_mean (l : list float) : float :=
  (sum l / of_Z (Z.of_nat (length l)))%float.

(** Ascending insertion sort. *)
Fixpoint insert (x : float) (l : list float) : list float :=
  match l with
  | [] => [x]
  | y :: t => if (x <=? y)%float then x :: y :: t else y :: insert x t
  end.

Definition sort (l : list float) : list float := fold_right insert [] l.

(** [np.median] of a list of floats: [nan] when the list is empty or
    holds a [nan], the middle of the sorted values for an odd count, the
    mean of the two middle values for an even one. *)
Definition median (l : list float) : float :=
  let n := length l in
  let s := sort l in
  if existsb is_nan l || Nat.eqb n 0 then nan
  else if Nat.odd n then nth (n / 2) s nan
  else ((nth (n / 2 - 1) s nan + nth (n / 2) s nan) / 2)%float.

(** The Euclidean distance of [scipy.spatial.minkowski_distance] with
    [p = 2]: [sum(abs(y - x) ** 2) ** 0.5]. *)
Definition euclidean (x y : list float) : float :=
  PrimFloat.sqrt
    (sum (map (fun ab => let d := abs (snd ab - fst ab) in d * d)%float
              (combine x y))).

End F64.

(** The null entries of a float64 graph: scipy masks the values
    [np.isclose] to zero (within [1e-8], the double
    [0x1.5798ee2308c3ap-27]), the infinities and [nan]. *)
Definition float_null (w : float) : bool :=
  (abs w <=? 0x1.5798ee2308c3ap-27)%float || is_infinity w || is_nan w.

#[export] Instance float_weight : Weight float :=
  {| w0 := 0%float; wadd := PrimFloat.add; wleb := PrimFloat.leb;
     wnull := float_null |}.

#[export] Instance float_metric : Metric (list float) float :=
  {| dist := F64.euclidean |}.

#[export] Instance float_median : Median float :=
  {| np_median := F64.median |}.

(** ** The Dimension Estimator: [estimate_dimension] *)

(** The C library's [log] on the positive finite doubles. *)
Class Libm : Type := {
  log_pos : float -> float
}.

(** The least-squares solve behind [LinearRegression().fit(X, y)] for one
    predictor, on validated input: the fitted [coef_[0]]. *)
Class Lstsq : Type := {
  ols_slope : list float -> list float -> float
}.

Module Estimator.
Section Defs.
Context `{Libm} `{Lstsq}.

(** [np.log] on one float64: [nan] for a [nan] or a negative argument,
    [-inf] for zero (numpy only warns), [inf] for [inf]. *)
Definition np_log (x : float) : float :=
  if is_nan x then nan
  else if (x <? 0)%float then nan
  else if (x =? 0)%float then neg_infinity
  else if (x =? infinity)%float then infinity
  else log_pos x.

(** [LinearRegression().fit(X, y).coef_[0]] for a one-column [X]:
    scikit-learn validates its input first and raises [ValueError] on a
    [nan] or an infinity in [X] or [y], on an empty [X], and on lengths
    that differ. *)
Definition LinearRegression_fit (X y : list float) : result float :=
  if negb (F64.all_finite X) then Raise ValueError
  else if Nat.eqb (length X) 0 then Raise ValueError
  else if negb (F64.all_finite y) then Raise ValueError
  else if negb (Nat.eqb (length X) (length y)) then Raise ValueError
  else Ok (ols_slope X y).

(** The transform [1 / (1 - slope)] on float64 (numpy scalars: a division
    by zero gives an infinity and a warning, not an exception). *)
Definition dimension_of_slope (slope : float) : float :=
  (1 / (1 - slope))%float.

(** [estimate_dimension(sizes, scores)], notebook lines 124-141. *)
Definition estimate_dimension (sizes : list Z) (scores : list float)
  : result float :=
  let log_sizes := map np_log (map F64.of_Z sizes) in
  let log_scores := map np_log scores in
  match LinearRegression_fit log_sizes log_scores with
  | Ok slope => Ok (dimension_of_slope slope)
  | Raise e => Raise e
  end.

End Defs.
End Estimator.

(** ** The Multi-run Aggregator: [estimate_sequence_dimension] *)

(** What [torch.load(path)] gives: a dict from names to dicts from layer
    numbers to tensors (lists of rows), or the exception it raises. *)
Class TorchFiles : Type := {
  torch_load : String.string -> result (list (String.string * list (Z * list (list float))))
}.

Module Aggregator.
Import String.

(** The state the aggregator touches: numpy's global generator, the files
    read so far, and what was printed. *)
Record world (G : Type) : Type := {
  rng : G;
  loaded : list String.string;
  stdout : list Z
}.

(** [d[key]] on a dict given as an association list. *)
Fixpoint getitem {K V} (eqb : K -> K -> bool) (d : list (K * V)) (key : K)
  : result V :=
  match d with
  | [] => Raise KeyError
  | (k, v) :: d' => if eqb k key then Ok v else getitem eqb d' key
  end.

(** The characters [str.strip()] removes (ASCII). *)
Definition is_space (c : Ascii.ascii) : bool :=
  let n := Ascii.nat_of_ascii c in
  ((9 <=? n) && (n <=? 13) || (28 <=? n) && (n <=? 32))%nat.

Fixpoint lstrip (s : String.string) : String.string :=
  match s with
  | String.EmptyString => s
  | String.String c s' => if is_space c then lstrip s' else s
  end.

Fixpoint rstrip (s : String.string) : String.string :=
  match s with
  | String.EmptyString => s
  | String.String c s' =>
      match rstrip s' with
      | String.EmptyString => if is_space c then String.EmptyString
                              else String.String c String.EmptyString
      | r => String.String c r
      end
  end.

Definition strip (s : String.string) : String.string := rstrip (lstrip s).

Section Defs.
Context {G : Type} `{RandomState G} `{Libm} `{Lstsq} `{TorchFiles}.

(** A computation on the generator, run on the generator of the world. *)
Definition with_rng {A} (m : M G A) : M (world G) A :=
  fun w => let (r, g') := m (rng w) in
           (r, {| rng := g'; loaded := loaded w; stdout := stdout w |}).

Definition print (n : Z) : M (world G) unit :=
  fun w => (Ok tt, {| rng := rng w; loaded := loaded w; stdout := stdout w ++ [n] |}).

Definition the_path (int_name emb_dir : String.string) : String.string :=
  String.append emb_dir
    (String.append "/"%string (String.append (strip int_name) ".pt"%string)).

(** [get_embeddings(int_name, emb_dir)], notebook lines 61-62:
    [torch.load(f"{emb_dir}/{int_name.strip()}.pt")["representations"][36]]. *)
Definition get_embeddings (int_name emb_dir : String.string)
  : M (world G) (list (list float)) :=
  fun w =>
    let path := the_path int_name emb_dir in
    let w' := {| rng := rng w; loaded := loaded w ++ [path]; stdout := stdout w |} in
    match torch_load path with
    | Raise e => (Raise e, w')
    | Ok d =>
        match getitem String.eqb d "representations"%string with
        | Raise e => (Raise e, w')
        | Ok reps => (getitem Z.eqb reps 36, w')
        end
    end.

(** The world with another generator state. *)
Definition set_rng (w : world G) (g : G) : world G :=
  {| rng := g; loaded := loaded w; stdout := stdout w |}.


(** One pass of the loop body, lines 168-173: a fresh [sizes]/[scores]
    pair, the log-log fit, and the slope appended to [slopes]. *)
Definition run_body (embeddings : list (list float)) (n : Z)
  (slopes : list float) : M (world G) (list float) :=
  ss <- with_rng (Subsampler.sample_and_score embeddings n
                    Subsampler.default_k Subsampler.default_hat_n
                    Subsampler.default_J) ;;
  let log_sizes := map Estimator.np_log (map F64.of_Z (fst ss)) in
  let log_scores := map Estimator.np_log (snd ss) in
  coef <- lift (Estimator.LinearRegression_fit log_sizes log_scores) ;;
  ret (slopes ++ [coef]).

(** [estimate_sequence_dimension(int_name, emb_dir, runs)], notebook
    lines 150-176. *)
Definition estimate_sequence_dimension (int_name emb_dir : String.string)
  (runs : Z) : M (world G) float :=
  embeddings <- get_embeddings int_name emb_dir ;;
  let n := Z.of_nat (List.length embeddings) in
  _ <- print n ;;
  slopes <- for_loop (range 0 runs)
              (fun _ slopes => run_body embeddings n slopes) [] ;;
  let kappa_F := F64.np_mean slopes in
  ret (Estimator.dimension_of_slope kappa_F).

(** *** The aggregator in the words of the specification (section 4.4)

    "Repeat R times: run the Subsampler to get a fresh sizes/scores pair,
    fit the log-log regression to obtain a slope; collect all R slopes,
    average them, and apply [1 / (1 - mean_slope)] once at the end." *)

Definition one_slope (embeddings : list (list float)) (n : Z) : M G float :=
  ss <- Subsampler.sample_and_score embeddings n
          Subsampler.default_k Subsampler.default_hat_n Subsampler.default_J ;;
  lift (Estimator.LinearRegression_fit
          (map Estimator.np_log (map F64.of_Z (fst ss)))
          (map Estimator.np_log (snd ss))).



End Defs.
End Aggregator.

(** ** Instances on which the program can be run *)

Module Demo.
Import String.

(** Points on a line at integer coordinates: the Euclidean distance of
    [x] and [y] is exactly [|x - y|], and scores are integers. *)
#[export] Instance Z_weight : Weight Z :=
  {| w0 := 0; wadd := Z.add; wleb := Z.leb; wnull := Z.eqb 0 |}.

#[export] Instance line_metric : Metric Z Z :=
  {| dist := fun x y => Z.abs (x - y) |}.

(** A generator that can be stepped by hand: in state [g] the permutation
    of [range(n)] is the rotation by [g], and the state becomes [g + 1]. *)
Definition rotation (g n : nat) : list nat :=
  skipn (Nat.modulo g n) (seq 0 n) ++ firstn (Nat.modulo g n) (seq 0 n).

#[export] Instance counter_rng : RandomState nat :=
  {| seed := Z.to_nat;
     permutation := fun g n => (rotation g n, S g) |}.

(** The natural logarithm of a positive finite double, from
    [x = m * 2^e] with [m] in [[0.5, 1)]: [e * ln 2 + 2 * atanh z] for
    [z = (m - 1) / (m + 1)], the series cut after [z^39]. *)
Definition ln2 : float := 0x1.62e42fefa39efp-1%float.

Fixpoint atanh_series (terms : nat) (k : float) (zk z2 : float) : float :=
  match terms with
  | O => 0%float
  | S t => (zk / k + atanh_series t (k + 2) (zk * z2) z2)%float
  end.

Definition series_log (x : float) : float :=
  let (m, e) := Z.frexp x in
  let z := ((m - 1) / (m + 1))%float in
  (F64.of_Z e * ln2 + 2 * atanh_series 20 1 z (z * z))%float.

#[export] Instance series_libm : Libm := {| log_pos := series_log |}.

(** The closed form of the least-squares slope for one predictor:
    [sum((x - mx) * (y - my)) / sum((x - mx)^2)]. *)
Definition closed_form_slope (X y : list float) : float :=
  let mx := F64.np_mean X in
  let my := F64.np_mean y in
  let sxy := F64.sum (map (fun xy => (fst xy - mx) * (snd xy - my))%float (combine X y)) in
  let sxx := F64.sum (map (fun x => (x - mx) * (x - mx))%float X) in
  (sxy / sxx)%float.

#[export] Instance closed_form_lstsq : Lstsq := {| ols_slope := closed_form_slope |}.

(** A file store with one checkpoint: 45 one-dimensional rows
    [0, 1, 4, 9, ...] as layer 36 of ["/emb/A.pt"]. *)
Definition squares_tensor : list (list float) :=
  map (fun i => [F64.of_Z (Z.of_nat (i * i))]) (seq 0 45).

#[export] Instance one_file : TorchFiles :=
  {| torch_load := fun path =>
       if String.eqb path "/emb/A.pt"%string
       then Ok [("representations"%string, [(36, squares_tensor)])]
       else Raise OSError |}.

(** Three points on a line, as rows of a float64 matrix. *)
Definition three_points : list (list float) :=
  [[0%float]; [1%float]; [3%float]].

(** Four of the sizes of the notebook's run. *)
Definition four_sizes : list Z := [40; 162; 285; 408].


Definition int_name_A : string := " A "%string.
Definition stripped_A : string := "A"%string.
Definition emb_root : string := "/emb"%string.
Definition path_A : string := "/emb/A.pt"%string.

Definition world0 : Aggregator.world nat :=
  {| Aggregator.rng := 0%nat; Aggregator.loaded := []; Aggregator.stdout := [] |}.

End Demo.

(** ** Vocabulary of the further properties *)

Module Vocabulary.

Section Generator.
Context {G : Type} `{RandomState G}.

(** The state one draw out of [n] leaves the generator in. *)
Definition advance (n : Z) (g : G) : G := snd (permutation g (Z.to_nat n)).

End Generator.

(** The world after the load and the print of [n]. *)
Definition after_load {G : Type} (w : Aggregator.world G) (int_name emb_dir : String.string)
  (printed : list Z) : Aggregator.world G :=
  {| Aggregator.rng := Aggregator.rng w;
     Aggregator.loaded :=
       Aggregator.loaded w ++ [Aggregator.the_path int_name emb_dir];
     Aggregator.stdout := Aggregator.stdout w ++ printed |}.


(** The number of components among the vertices [0 .. M-1]. *)
Definition classes (c : Scorer.uf) (M : nat) : nat :=
  length (nodup Nat.eq_dec (map c (seq 0 M))).

(** The labelling Kruskal's loop ends with. *)
Fixpoint kruskal_state {W : Type} (c : Scorer.uf)
  (es : list (@Scorer.edge W)) : Scorer.uf :=
  match es with
  | [] => c
  | e :: t =>
      if Nat.eqb (c (Scorer.src e)) (c (Scorer.dst e)) then kruskal_state c t
      else kruskal_state (Scorer.uf_union c (Scorer.src e) (Scorer.dst e)) t
  end.

End Vocabulary.

(** ** More inputs on which the program can be run *)

Module Inputs.
Import String.

(** A checkpoint of 39 rows, one short of the default [hat_n]. *)
Definition short_tensor : list (list float) :=
  map (fun i => [F64.of_Z (Z.of_nat i)]) (seq 0 39).

Definition short_file : TorchFiles :=
  {| torch_load := fun _ => Ok [("representations"%string, [(36, short_tensor)])] |}.

(** A checkpoint that lacks layer 36. *)
Definition other_layer_file : TorchFiles :=
  {| torch_load := fun _ => Ok [("representations"%string, [(33, short_tensor)])] |}.

Definition padded_name : string := "LPINT 124"%string.

(** The entries of the distance matrix of the points 0, 1, 3 of a line,
    sorted by weight with the lower triangle first. *)
Definition lower_first : list (@Scorer.edge Z) :=
  [(1%nat, 0%nat, 1); (0%nat, 1%nat, 1); (2%nat, 1%nat, 2); (1%nat, 2%nat, 2);
   (2%nat, 0%nat, 3); (0%nat, 2%nat, 3)].

End Inputs.

(** ** Vocabulary of the statements *)

(** Entries at increasing positions increase. *)
Definition strictly_increasing (l : list Z) : Prop :=
  forall i j a b, (i < j)%nat ->
    nth_error l i = Some a -> nth_error l j = Some b -> a < b.

(** Entries at increasing positions do not decrease. *)
Definition non_decreasing (l : list Z) : Prop :=
  forall i j a b, (i < j)%nat ->
    nth_error l i = Some a -> nth_error l j = Some b -> a <= b.

(* ================================================================== *)
(** * Part II: properties *)
(* ================================================================== *)

(** ** Ranges *)

Lemma length_range (a b : Z) : length (range a b) = Z.to_nat (b - a).
Proof. unfold range. now rewrite length_map, length_seq. Qed.

Lemma nth_error_range (a b : Z) (j : nat) :
  (j < Z.to_nat (b - a))%nat ->
  nth_error (range a b) j = Some (a + Z.of_nat j).
Proof.
  intros Hj. unfold range.
  rewrite nth_error_map, nth_error_seq.
  destruct (Nat.ltb_spec j (Z.to_nat (b - a))); [reflexivity | lia].
Qed.

Lemma range_empty (a b : Z) : b <= a -> range a b = [].
Proof.
  intros Hba. unfold range.
  replace (Z.to_nat (b - a)) with 0%nat by lia. reflexivity.
Qed.

Lemma range_cons (a b : Z) : a < b -> range a b = a :: range (a + 1) b.
Proof.
  intros Hab. unfold range.
  replace (Z.to_nat (b - a)) with (S (Z.to_nat (b - (a + 1)))) by lia.
  cbn [seq map]. f_equal; [lia |].
  rewrite <- seq_shift, map_map.
  apply map_ext. intros i. lia.
Qed.

(** ** Size generation *)

Module SizeFacts.
Import Subsampler.

Lemma length_sample_sizes (N k hat_n : Z) :
  length (sample_sizes N k hat_n) = Z.to_nat k.
Proof.
  unfold sample_sizes. rewrite length_map, length_range. f_equal. lia.
Qed.

Lemma nth_error_sample_sizes (N k hat_n : Z) (j : nat) :
  (j < Z.to_nat k)%nat ->
  nth_error (sample_sizes N k hat_n) j
  = Some (Z.of_nat j * (N - hat_n) / k + hat_n).
Proof.
  intros Hj. unfold sample_sizes.
  rewrite nth_error_map, nth_error_range by lia.
  cbn [option_map].
  replace (1 + Z.of_nat j - 1) with (Z.of_nat j) by lia. reflexivity.
Qed.

Lemma nth_error_sample_sizes_inv (N k hat_n : Z) (j : nat) (s : Z) :
  nth_error (sample_sizes N k hat_n) j = Some s ->
  (j < Z.to_nat k)%nat /\ s = Z.of_nat j * (N - hat_n) / k + hat_n.
Proof.
  intros Hs.
  assert (Hj : (j < Z.to_nat k)%nat).
  { rewrite <- (length_sample_sizes N k hat_n).
    apply nth_error_Some. congruence. }
  split; [exact Hj |].
  rewrite nth_error_sample_sizes in Hs by exact Hj. congruence.
Qed.

(** The quotient [j * d / k] for [0 <= j < k] and [0 <= d]. *)
Lemma step_bounds (j d k : Z) :
  0 <= j < k -> 0 <= d -> 0 <= j * d / k <= d.
Proof.
  intros Hj Hd. split.
  - apply Z.div_pos; nia.
  - apply Z.div_le_upper_bound; nia.
Qed.

Lemma step_mono (i j d k : Z) :
  0 < k -> 0 <= d -> i <= j -> i * d / k <= j * d / k.
Proof.
  intros Hk Hd Hij. apply Z.div_le_mono; nia.
Qed.

Lemma step_strict (i j d k : Z) :
  0 < k -> k <= d -> i < j -> i * d / k < j * d / k.
Proof.
  intros Hk Hd Hij.
  assert (H1 : (i * d + 1 * k) / k <= j * d / k)
    by (apply Z.div_le_mono; nia).
  rewrite Z.div_add in H1 by lia. lia.
Qed.

Lemma sizes_in_bounds (N k hat_n s : Z) :
  hat_n <= N -> In s (sample_sizes N k hat_n) -> hat_n <= s <= N.
Proof.
  intros HN Hin.
  apply In_nth_error in Hin. destruct Hin as [j Hj].
  apply nth_error_sample_sizes_inv in Hj. destruct Hj as [Hj ->].
  pose proof (@step_bounds (Z.of_nat j) (N - hat_n) k) as Hb.
  lia.
Qed.

Lemma sizes_non_decreasing (N k hat_n : Z) :
  hat_n <= N -> non_decreasing (sample_sizes N k hat_n).
Proof.
  intros HN i j a b Hij Ha Hb.
  apply nth_error_sample_sizes_inv in Ha, Hb.
  destruct Ha as [Hi ->], Hb as [Hj ->].
  pose proof (@step_mono (Z.of_nat i) (Z.of_nat j) (N - hat_n) k).
  lia.
Qed.

Lemma sizes_strictly_increasing (N k hat_n : Z) :
  k <= N - hat_n -> strictly_increasing (sample_sizes N k hat_n).
Proof.
  intros Hd i j a b Hij Ha Hb.
  apply nth_error_sample_sizes_inv in Ha, Hb.
  destruct Ha as [Hi ->], Hb as [Hj ->].
  pose proof (@step_strict (Z.of_nat i) (Z.of_nat j) (N - hat_n) k).
  lia.
Qed.

Lemma sizes_singleton_increasing (N hat_n : Z) :
  strictly_increasing (sample_sizes N 1 hat_n).
Proof.
  intros i j a b Hij Ha Hb.
  apply nth_error_sample_sizes_inv in Ha, Hb. lia.
Qed.

(** With fewer spare points than sizes, the first two sizes coincide. *)
Lemma sizes_first_two_equal (N k hat_n : Z) :
  2 <= k -> 0 <= N - hat_n < k ->
  nth_error (sample_sizes N k hat_n) 0 = Some hat_n /\
  nth_error (sample_sizes N k hat_n) 1 = Some hat_n.
Proof.
  intros Hk Hd.
  rewrite !nth_error_sample_sizes by lia.
  cbn [Z.of_nat Pos.of_succ_nat]. rewrite Z.mul_0_l, Z.mul_1_l.
  rewrite Z.div_0_l by lia. rewrite Z.div_small by lia. auto.
Qed.

Lemma sizes_head (N k hat_n : Z) :
  1 <= k -> hd_error (sample_sizes N k hat_n) = Some hat_n.
Proof.
  intros Hk.
  pose proof (@nth_error_sample_sizes N k hat_n 0) as H0.
  destruct (sample_sizes N k hat_n) as [| s l].
  - cbn in H0. specialize (H0 ltac:(lia)). discriminate.
  - cbn [nth_error hd_error] in H0 |- *. rewrite H0 by lia.
    change (Z.of_nat 0) with 0.
    rewrite Z.mul_0_l, Z.div_0_l by lia. reflexivity.
Qed.

End SizeFacts.

(** ** The MST Persistence Scorer *)

Module ScorerFacts.
Import Scorer.

(** *** Lists with positions *)

Lemma in_combine_seq {A} (l : list A) :
  forall (a i : nat) (x : A),
    In (i, x) (combine (seq a (length l)) l)
    <-> (a <= i)%nat /\ nth_error l (i - a) = Some x.
Proof.
  induction l as [| y l IH]; intros a i x; cbn [length seq combine].
  - split; [intros [] |]. intros [_ Hn]. now destruct (i - a)%nat.
  - cbn [In]. rewrite IH. split.
    + intros [Heq | [Hle Hn]].
      * inversion Heq; subst. rewrite Nat.sub_diag. auto.
      * split; [lia |].
        replace (i - a)%nat with (S (i - S a)) by lia. exact Hn.
    + intros [Hle Hn].
      destruct (Nat.eq_dec a i) as [-> | Hne].
      * rewrite Nat.sub_diag in Hn. cbn in Hn. left. congruence.
      * right. split; [lia |].
        replace (i - a)%nat with (S (i - S a)) in Hn by lia. exact Hn.
Qed.

Lemma in_enumerate {A} (l : list A) (i : nat) (x : A) :
  In (i, x) (enumerate l) <-> nth_error l i = Some x.
Proof.
  unfold enumerate. rewrite in_combine_seq, Nat.sub_0_r.
  split; [tauto | split; [lia | assumption]].
Qed.

(** Entries produced from different positions are different. *)
Lemma NoDup_flat_map_positions {A B} (tag : B -> nat) (g : nat * A -> list B)
  (l : list A) :
  (forall i x b, In b (g (i, x)) -> tag b = i) ->
  (forall ix, NoDup (g ix)) ->
  forall a, NoDup (flat_map g (combine (seq a (length l)) l)).
Proof.
  intros Htag Hg. induction l as [| y l IH]; intros a;
    cbn [length seq combine flat_map]; [constructor |].
  apply NoDup_app; [apply Hg | apply IH |].
  intros b Hb Hrest.
  apply Htag in Hb.
  apply in_flat_map in Hrest. destruct Hrest as [[i x] [Hix Hbi]].
  apply Htag in Hbi. apply in_combine_seq in Hix. lia.
Qed.

Section Entries.
Context {P W : Type} `{Weight W} `{Metric P W}.

Lemma in_csr_entries (m : list (list W)) (i j : nat) (w : W) :
  In (i, j, w) (csr_entries m)
  <-> exists row, nth_error m i = Some row /\ nth_error row j = Some w /\
                  wnull w = false.
Proof.
  unfold csr_entries. rewrite in_flat_map. split.
  - intros [[i0 row] [Hrow Hin]]. cbn [fst snd] in Hin.
    apply in_enumerate in Hrow.
    apply in_flat_map in Hin. destruct Hin as [[j0 w1] [Hj Hb]].
    apply in_enumerate in Hj. cbn [fst snd] in Hb.
    destruct (wnull w1) eqn:Hz; cbn in Hb; [contradiction |].
    destruct Hb as [Hb | []]. inversion Hb; subst. exists row. auto.
  - intros [row [Hrow [Hj Hz]]].
    exists (i, row). split; [now apply in_enumerate |].
    apply in_flat_map. exists (j, w). split; [now apply in_enumerate |].
    cbn [fst snd]. rewrite Hz. now left.
Qed.

(** The entries of the distance matrix of [p] with itself: one for every
    ordered pair of rows whose distance is not zero. *)
Lemma in_csr_entries_distance (p : list P) (i j : nat) (w : W) :
  In (i, j, w) (csr_entries (distance_matrix p p))
  <-> exists x y, nth_error p i = Some x /\ nth_error p j = Some y /\
                  w = dist x y /\ wnull w = false.
Proof.
  rewrite in_csr_entries. unfold distance_matrix. split.
  - intros [row [Hrow [Hj Hz]]].
    rewrite nth_error_map in Hrow.
    destruct (nth_error p i) as [x |]; [| discriminate].
    cbn in Hrow. inversion Hrow; subst row.
    rewrite nth_error_map in Hj.
    destruct (nth_error p j) as [y |]; [| discriminate].
    cbn in Hj. inversion Hj; subst w. exists x, y. auto.
  - intros [x [y [Hi [Hj [-> Hz]]]]].
    exists (map (fun yj => dist x yj) p). split; [| split].
    + rewrite nth_error_map, Hi. reflexivity.
    + rewrite nth_error_map, Hj. reflexivity.
    + exact Hz.
Qed.

Lemma NoDup_csr_entries (m : list (list W)) : NoDup (csr_entries m).
Proof.
  unfold csr_entries, enumerate.
  apply NoDup_flat_map_positions with (tag := @src W).
  - intros i row b Hb. cbn [fst snd] in Hb.
    apply in_flat_map in Hb. destruct Hb as [[j w] [_ Hb]].
    cbn [fst snd] in Hb. destruct (wnull w); cbn in Hb; [contradiction |].
    destruct Hb as [<- | []]. reflexivity.
  - intros [i row]. cbn [fst snd].
    apply NoDup_flat_map_positions with (tag := @dst W).
    + intros j w b Hb. cbn [fst snd] in Hb.
      destruct (wnull w); cbn in Hb; [contradiction |].
      destruct Hb as [<- | []]. reflexivity.
    + intros [j w]. cbn [fst snd].
      destruct (wnull w); repeat constructor. intros [].
Qed.

(** *** Sorting by weight *)

Lemma insert_edge_perm (e : edge) (l : list edge) :
  Permutation (insert_edge e l) (e :: l).
Proof.
  induction l as [| x l IH]; cbn; [reflexivity |].
  destruct (wleb (weight e) (weight x)); [reflexivity |].
  rewrite IH. apply perm_swap.
Qed.

Lemma argsort_perm (l : list edge) : Permutation (argsort l) l.
Proof.
  induction l as [| e l IH]; cbn; [reflexivity |].
  rewrite insert_edge_perm. now constructor.
Qed.

Context {laws : @WeightLaws W _}.

Lemma insert_edge_sorted (e : edge) (l : list edge) :
  StronglySorted lew l -> StronglySorted lew (insert_edge e l).
Proof.
  induction 1 as [| x l Hl IH Hx]; cbn.
  - repeat constructor.
  - destruct (wleb (weight e) (weight x)) eqn:Hex.
    + constructor; [now constructor |].
      constructor; [exact Hex |].
      eapply Forall_impl; [| exact Hx].
      intros f Hf. unfold lew in *. eapply wleb_trans; eassumption.
    + constructor; [exact IH |].
      rewrite (insert_edge_perm e l). constructor; [| exact Hx].
      unfold lew. destruct (wleb_total (weight e) (weight x)); congruence.
Qed.

Lemma argsort_sorted (l : list edge) : StronglySorted lew (argsort l).
Proof.
  induction l as [| e l IH]; cbn; [constructor |].
  now apply insert_edge_sorted.
Qed.

End Entries.

(** *** Kruskal's loop *)

Section Kruskal.
Context {W : Type}.

Ltac uf_brute :=
  unfold uf_union in *; cbv zeta in *;
  repeat match goal with
         | H : Nat.eqb _ _ = true |- _ => apply Nat.eqb_eq in H
         | H : Nat.eqb _ _ = false |- _ => apply Nat.eqb_neq in H
         | |- context [Nat.eqb ?x ?y] => destruct (Nat.eqb_spec x y)
         | H : context [Nat.eqb ?x ?y] |- _ => destruct (Nat.eqb_spec x y)
         end;
  try congruence; try (split; congruence).

(** Joining two classes on both sides keeps two labellings in step. *)
Lemma uf_union_sim (f : nat -> nat) (c c' : uf) (a b : nat) :
  (forall u v, c (f u) = c (f v) <-> c' u = c' v) ->
  forall u v,
    uf_union c (f a) (f b) (f u) = uf_union c (f a) (f b) (f v)
    <-> uf_union c' a b u = uf_union c' a b v.
Proof.
  intros Hsim u v.
  pose proof (Hsim u a). pose proof (Hsim v a). pose proof (Hsim u v).
  pose proof (Hsim u b). pose proof (Hsim v b). pose proof (Hsim b b).
  pose proof (Hsim b u). pose proof (Hsim b v).
  uf_brute; intuition congruence.
Qed.

(** The weights kept do not depend on the names of the vertices. *)
Lemma kruskal_sim (f : nat -> nat) (l : list (@edge W)) :
  forall c c' : uf,
    (forall u v, c (f u) = c (f v) <-> c' u = c' v) ->
    map weight (kruskal c (map (relabel f) l)) = map weight (kruskal c' l).
Proof.
  induction l as [| e l IH]; intros c c' Hsim; [reflexivity |].
  cbn [map kruskal]. change (src (relabel f e)) with (f (src e)).
  change (dst (relabel f e)) with (f (dst e)).
  pose proof (Hsim (src e) (dst e)) as He.
  destruct (Nat.eqb_spec (c (f (src e))) (c (f (dst e))));
    destruct (Nat.eqb_spec (c' (src e)) (c' (dst e))); try tauto.
  - now apply IH.
  - cbn [map]. f_equal. apply IH. now apply uf_union_sim.
Qed.

Lemma map_relabel_id (l : list (@edge W)) : map (relabel (fun v => v)) l = l.
Proof.
  induction l as [| [[a b] w] l IH]; cbn; [reflexivity |]. now rewrite IH.
Qed.

Lemma kruskal_equiv (l : list (@edge W)) (c c' : uf) :
  uf_equiv c c' -> map weight (kruskal c l) = map weight (kruskal c' l).
Proof.
  intros Heq. rewrite <- (map_relabel_id l) at 1.
  apply kruskal_sim. exact Heq.
Qed.

Lemma uf_union_keeps (c : uf) (a b u v : nat) :
  c u = c v -> uf_union c a b u = uf_union c a b v.
Proof. intros Huv. unfold uf_union. cbv zeta. now rewrite Huv. Qed.

(** Whether the second of two entries closes a cycle once the first is
    in does not depend on which comes first. *)
Lemma uf_union_cycle_sym (c : uf) (a b a' b' : nat) :
  c a <> c b -> c a' <> c b' ->
  Nat.eqb (uf_union c a b a') (uf_union c a b b')
  = Nat.eqb (uf_union c a' b' a) (uf_union c a' b' b).
Proof. intros Hab Hab'. uf_brute. Qed.

Lemma uf_union_same_merge (c : uf) (a b a' b' : nat) :
  c a <> c b -> c a' <> c b' ->
  uf_union c a b a' = uf_union c a b b' ->
  uf_equiv (uf_union c a b) (uf_union c a' b').
Proof. intros Hab Hab' Hcyc u v. uf_brute. Qed.

Lemma uf_union_comm (c : uf) (a b a' b' : nat) :
  uf_equiv (uf_union (uf_union c a b) a' b') (uf_union (uf_union c a' b') a b).
Proof. intros u v. uf_brute. Qed.

(** Two neighbours of equal weight can change places. *)
Lemma kruskal_swap (c : uf) (e f : @edge W) (l : list edge) :
  weight e = weight f ->
  map weight (kruskal c (e :: f :: l)) = map weight (kruskal c (f :: e :: l)).
Proof.
  intros Hw. cbn [kruskal].
  destruct (Nat.eqb_spec (c (src e)) (c (dst e))) as [He | He];
    destruct (Nat.eqb_spec (c (src f)) (c (dst f))) as [Hf | Hf].
  - reflexivity.
  - rewrite (@uf_union_keeps c (src f) (dst f) _ _ He), Nat.eqb_refl. reflexivity.
  - rewrite (@uf_union_keeps c (src e) (dst e) _ _ Hf), Nat.eqb_refl. reflexivity.
  - rewrite (@uf_union_cycle_sym c _ _ _ _ He Hf).
    destruct (Nat.eqb_spec (uf_union c (src f) (dst f) (src e))
                           (uf_union c (src f) (dst f) (dst e))) as [Hc | Hc].
    + cbn [map]. rewrite Hw. f_equal.
      apply kruskal_equiv.
      intros u v. symmetry. now apply uf_union_same_merge.
    + cbn [map]. rewrite Hw. do 2 f_equal.
      apply kruskal_equiv, uf_union_comm.
Qed.

Lemma kruskal_swap_eq (l l' : list (@edge W)) :
  swap_eq l l' ->
  forall c : uf, map weight (kruskal c l) = map weight (kruskal c l').
Proof.
  induction 1 as [l | e l l' _ IH | e f l Hw | l1 l2 l3 _ IH1 _ IH2]; intros c.
  - reflexivity.
  - cbn [kruskal]. destruct (Nat.eqb (c (src e)) (c (dst e)));
      cbn [map]; now rewrite IH.
  - now apply kruskal_swap.
  - now rewrite IH1.
Qed.

(** An entry moves to the right past entries of its own weight. *)
Lemma swap_eq_bubble (a : @edge W) (l1 l2 : list (@edge W)) :
  (forall x, In x l1 -> weight x = weight a) ->
  swap_eq (a :: l1 ++ l2) (l1 ++ a :: l2).
Proof.
  induction l1 as [| x l1 IH]; intros Hall; cbn [app].
  - apply swap_refl.
  - eapply swap_trans.
    + apply swap_here. symmetry. apply Hall. now left.
    + apply swap_skip, IH. intros y Hy. apply Hall. now right.
Qed.

Lemma kruskal_incl (l : list (@edge W)) :
  forall (c : uf) (e : edge), In e (kruskal c l) -> In e l.
Proof.
  induction l as [| x l IH]; intros c e; cbn [kruskal]; [tauto |].
  destruct (Nat.eqb (c (src x)) (c (dst x))); cbn [In].
  - intros Hin. right. eapply IH, Hin.
  - intros [-> | Hin]; [now left | right; eapply IH, Hin].
Qed.

Lemma kruskal_NoDup (l : list (@edge W)) :
  NoDup l -> forall c : uf, NoDup (kruskal c l).
Proof.
  induction 1 as [| x l Hx _ IH]; intros c; cbn [kruskal]; [constructor |].
  destruct (Nat.eqb (c (src x)) (c (dst x))); [apply IH |].
  constructor; [| apply IH].
  intros Hin. apply Hx. eapply kruskal_incl, Hin.
Qed.

End Kruskal.

(** *** The score does not depend on the order of the rows *)

Section Invariance.
Context {P W : Type} `{Weight W} `{Metric P W} {laws : @WeightLaws W _}.

Lemma StronglySorted_remove {A} (R : A -> A -> Prop) (a : A) (l1 l2 : list A) :
  StronglySorted R (l1 ++ a :: l2) ->
  StronglySorted R (l1 ++ l2) /\ Forall (fun x => R x a) l1.
Proof.
  induction l1 as [| x l1 IH]; cbn [app]; intros Hs.
  - apply StronglySorted_inv in Hs. split; [tauto | constructor].
  - apply StronglySorted_inv in Hs. destruct Hs as [Hs Hx].
    destruct (IH Hs) as [Hs' Hall].
    rewrite Forall_app in Hx. destruct Hx as [Hx1 Hx2].
    split.
    + constructor; [exact Hs' |].
      rewrite Forall_app. split; [exact Hx1 | now inversion Hx2].
    + constructor; [now inversion Hx2 | exact Hall].
Qed.

(** Two sorted arrangements of the same entries differ by exchanges of
    neighbours of equal weight. *)
Lemma sorted_perm_swap_eq (l1 : list (@edge W)) :
  forall l2, StronglySorted lew l1 -> StronglySorted lew l2 ->
             Permutation l1 l2 -> swap_eq l1 l2.
Proof.
  induction l1 as [| a l1 IH]; intros l2 Hs1 Hs2 Hp.
  - apply Permutation_nil in Hp. subst. apply swap_refl.
  - assert (Hin : In a l2) by (eapply Permutation_in; [exact Hp | now left]).
    apply in_split in Hin. destruct Hin as [la [lb ->]].
    apply Permutation_cons_app_inv in Hp.
    apply StronglySorted_remove in Hs2. destruct Hs2 as [Hs2 Hla].
    apply StronglySorted_inv in Hs1. destruct Hs1 as [Hs1 Ha].
    eapply swap_trans.
    + apply swap_skip, IH; eassumption.
    + apply swap_eq_bubble. intros x Hx.
      rewrite Forall_forall in Hla, Ha.
      apply wleb_antisym; [now apply Hla |].
      apply Ha. eapply Permutation_in; [symmetry; exact Hp |].
      apply in_or_app. now left.
Qed.

(** The weights Kruskal's loop keeps are the same for every sorted
    arrangement of the entries. *)
Lemma kruskal_tie_order (E L : list (@edge W)) (c : uf) :
  StronglySorted lew L -> Permutation L E ->
  map weight (kruskal c L) = map weight (kruskal c (argsort E)).
Proof.
  intros Hs Hp. apply kruskal_swap_eq, sorted_perm_swap_eq.
  - exact Hs.
  - apply argsort_sorted.
  - now rewrite argsort_perm.
Qed.

Lemma fold_left_wadd_perm (l l' : list W) :
  Permutation l l' ->
  forall acc, fold_left wadd l acc = fold_left wadd l' acc.
Proof.
  induction 1 as [| x l l' _ IH | x y l | l1 l2 l3 _ IH1 _ IH2]; intros acc;
    cbn [fold_left].
  - reflexivity.
  - apply IH.
  - f_equal. rewrite <- !wadd_assoc. f_equal. apply wadd_comm.
  - now rewrite IH1.
Qed.

Lemma csr_sum_perm (t t' : list (@edge W)) :
  Permutation t t' -> csr_sum t = csr_sum t'.
Proof.
  intros Hp. unfold csr_sum.
  apply fold_left_wadd_perm. now apply Permutation_map.
Qed.

Lemma same_position_refl (e : @edge W) : same_position e e = true.
Proof. unfold same_position. now rewrite !Nat.eqb_refl. Qed.

(** A position of the matrix holds one entry. *)
Lemma csr_entries_position (m : list (list W)) (e f : edge) :
  In e (csr_entries m) -> In f (csr_entries m) ->
  same_position e f = true -> e = f.
Proof.
  destruct e as [[i j] w], f as [[i' j'] w'].
  unfold same_position, src, dst. cbn [fst snd].
  intros He Hf Hpos.
  apply andb_true_iff in Hpos. destruct Hpos as [Hi Hj].
  apply Nat.eqb_eq in Hi, Hj. subst i' j'.
  apply in_csr_entries in He, Hf.
  destruct He as [row [Hrow [Hw _]]], Hf as [row' [Hrow' [Hw' _]]].
  congruence.
Qed.

(** The stored entries of the tree are the entries Kruskal's loop kept. *)
Lemma minimum_spanning_tree_perm (m : list (list W)) :
  Permutation (minimum_spanning_tree m)
              (kruskal uf_init (argsort (csr_entries m))).
Proof.
  unfold minimum_spanning_tree.
  set (E := csr_entries m). set (K := kruskal uf_init (argsort E)).
  assert (HKE : forall e, In e K -> In e E).
  { intros e He. apply kruskal_incl in He.
    eapply Permutation_in; [apply argsort_perm | exact He]. }
  apply NoDup_Permutation.
  - apply NoDup_filter, NoDup_csr_entries.
  - apply kruskal_NoDup.
    eapply Permutation_NoDup; [symmetry; apply argsort_perm |].
    apply NoDup_csr_entries.
  - intros e. rewrite filter_In, existsb_exists. split.
    + intros [He [f [Hf Hpos]]].
      rewrite (csr_entries_position m e f); auto.
    + intros He. split; [now apply HKE |].
      exists e. split; [exact He | apply same_position_refl].
Qed.




End Invariance.

End ScorerFacts.

(** The integers are an exact arithmetic. *)
Lemma Z_weight_laws : @WeightLaws Z Demo.Z_weight.
Proof.
  constructor; cbn; intros.
  - destruct (Z.leb_spec a b), (Z.leb_spec b a); auto; lia.
  - apply Z.leb_le. apply Z.leb_le in H, H0. lia.
  - apply Z.leb_le in H, H0. lia.
  - lia.
  - lia.
Qed.

(** ** The Subsampler *)

Module SubsamplerFacts.
Import Subsampler SizeFacts.

Section Facts.
Context {P W G : Type} `{Weight W} `{Metric P W} `{Median W} `{RandomState G}.

Lemma for_each_length {S A B} (f : A -> M S B) (xs : list A) :
  forall s ys s', for_each xs f s = (Ok ys, s') -> length ys = length xs.
Proof.
  induction xs as [| x xs IH]; intros s ys s' Hrun; cbn in Hrun.
  - inversion Hrun. reflexivity.
  - unfold bind in Hrun.
    destruct (f x s) as [[y | e] s1]; [| discriminate].
    destruct (for_each xs f s1) as [[ys1 | e] s2] eqn:Hrest; [| discriminate].
    inversion Hrun; subst. cbn. f_equal. eapply IH, Hrest.
Qed.

(** What [sample_and_score] returns, when it returns, starts with the
    list of line 108, and holds one score per size. *)
Lemma sample_and_score_returns (embeddings : list P) (n k hat_n J : Z) (g g' : G)
  (szs : list Z) (scs : list W) :
  sample_and_score embeddings n k hat_n J g = (Ok (szs, scs), g') ->
  szs = sample_sizes n k hat_n /\ length scs = length szs.
Proof.
  unfold sample_and_score, bind. intros Hrun.
  destruct (for_each (sample_sizes n k hat_n) _ g) as [[scores | e] g1] eqn:Hloop;
    [| discriminate].
  inversion Hrun; subst. split; [reflexivity |].
  eapply for_each_length, Hloop.
Qed.

(** A sample within the population is drawn; nothing is raised. *)
Lemma np_random_choice_ok (a size : Z) (g : G) :
  0 <= size <= a ->
  np_random_choice a size g
  = (Ok (firstn (Z.to_nat size) (fst (permutation g (Z.to_nat a)))),
     snd (permutation g (Z.to_nat a))).
Proof.
  intros Hs. unfold np_random_choice.
  destruct (Z.gtb_spec size a); [lia |].
  destruct (Z.ltb_spec size 0); [lia |].
  cbn [orb]. destruct (permutation g (Z.to_nat a)). reflexivity.
Qed.

(** A sample larger than the population raises, and draws nothing. *)
Lemma np_random_choice_too_large (a size : Z) (g : G) :
  a < size -> np_random_choice a size g = (Raise ValueError, g).
Proof.
  intros Hs. unfold np_random_choice.
  destruct (Z.gtb_spec size a); [reflexivity | lia].
Qed.

Lemma draw_score_too_large (embeddings : list P) (n size : Z) (g : G) :
  n < size -> draw_score embeddings n size g = (Raise ValueError, g).
Proof.
  intros Hs. unfold draw_score, bind.
  now rewrite np_random_choice_too_large.
Qed.

(** No size, no draw. *)
Lemma sample_and_score_no_sizes (embeddings : list P) (n k hat_n J : Z) (g : G) :
  k < 1 -> sample_and_score embeddings n k hat_n J g = (Ok ([], []), g).
Proof.
  intros Hk. unfold sample_and_score, sample_sizes.
  rewrite range_empty by lia. reflexivity.
Qed.

(** A loop whose body neither raises nor touches the state is a [map]. *)
Lemma for_each_pure {S A B} (f : A -> M S B) (h : A -> B) (xs : list A) (s : S) :
  (forall x, f x s = (Ok (h x), s)) ->
  for_each xs f s = (Ok (map h xs), s).
Proof.
  intros Hf. induction xs as [| x xs IH]; cbn; [reflexivity |].
  unfold bind. now rewrite Hf, IH.
Qed.

(** No draw per size: every median is the median of the empty list. *)
Lemma sample_and_score_no_draws (embeddings : list P) (n k hat_n J : Z) (g : G) :
  J < 1 ->
  sample_and_score embeddings n k hat_n J g
  = (Ok (sample_sizes n k hat_n,
         map (fun _ => np_median []) (sample_sizes n k hat_n)), g).
Proof.
  intros HJ. unfold sample_and_score.
  rewrite (@range_empty 0 J) by lia.
  unfold bind at 1.
  rewrite for_each_pure with (h := fun _ : Z => np_median (@nil W));
    reflexivity.
Qed.

(** With [hat_n] above [n], the first draw of the first size raises. *)
Lemma sample_and_score_first_draw_raises (embeddings : list P)
  (n k hat_n J : Z) (g : G) :
  1 <= k -> 1 <= J -> n < hat_n ->
  sample_and_score embeddings n k hat_n J g = (Raise ValueError, g).
Proof.
  intros Hk HJ Hn. unfold sample_and_score, sample_sizes.
  rewrite (@range_cons 1 (k + 1)) by lia.
  rewrite (@range_cons 0 J) by lia.
  cbn [map for_each]. unfold bind.
  replace ((1 - 1) * (n - hat_n) / k + hat_n) with hat_n.
  - now rewrite draw_score_too_large.
  - rewrite Z.sub_diag, Z.mul_0_l, Z.div_0_l by lia. lia.
Qed.

(** A loop whose body always returns, returns. *)
Lemma for_each_ok {S A B} (f : A -> M S B) (xs : list A) :
  (forall x, In x xs -> forall s, exists y s', f x s = (Ok y, s')) ->
  forall s, exists ys s', for_each xs f s = (Ok ys, s').
Proof.
  induction xs as [| x xs IH]; intros Hf s; cbn [for_each].
  - exists [], s. reflexivity.
  - destruct (Hf x (or_introl eq_refl) s) as [y [s1 Hy]].
    destruct (IH (fun x' Hx' => Hf x' (or_intror Hx')) s1) as [ys [s2 Hys]].
    exists (y :: ys), s2. unfold bind. now rewrite Hy, Hys.
Qed.

Lemma take_rows_ok (embeddings : list P) (idx : list nat) :
  (forall i, In i idx -> (i < length embeddings)%nat) ->
  exists rows, take_rows embeddings idx = Ok rows.
Proof.
  induction idx as [| i idx IH]; intros Hidx; cbn [take_rows].
  - now exists [].
  - destruct (nth_error embeddings i) as [row |] eqn:Hrow.
    + destruct IH as [rows ->]; [intros j Hj; apply Hidx; now right |].
      now exists (row :: rows).
    + apply nth_error_None in Hrow.
      specialize (Hidx i (or_introl eq_refl)). lia.
Qed.

Context {rng_laws : @RandomStateLaws G _}.

(** What is drawn: [size] distinct indices below [a]. *)
Lemma np_random_choice_draws (a size : Z) (g g' : G) (idx : list nat) :
  np_random_choice a size g = (Ok idx, g') ->
  length idx = Z.to_nat size /\ NoDup idx /\
  (forall i, In i idx -> (i < Z.to_nat a)%nat).
Proof.
  unfold np_random_choice.
  destruct (Z.gtb_spec size a); [discriminate |].
  destruct (Z.ltb_spec size 0); [discriminate |].
  cbn [orb].
  pose proof (permutation_perm g (Z.to_nat a)) as Hperm.
  destruct (permutation g (Z.to_nat a)) as [p g1]. cbn [fst] in Hperm.
  intros Hrun. inversion Hrun; subst idx g'.
  assert (Hlen : length p = Z.to_nat a).
  { rewrite <- (Permutation_length Hperm). apply length_seq. }
  assert (Hnd : NoDup p).
  { eapply Permutation_NoDup; [exact Hperm | apply seq_NoDup]. }
  split; [| split].
  - apply firstn_length_le. lia.
  - rewrite <- (firstn_skipn (Z.to_nat size) p) in Hnd.
    eapply NoDup_app_remove_r, Hnd.
  - intros i Hi.
    assert (Hi' : In i p).
    { rewrite <- (firstn_skipn (Z.to_nat size)). apply in_or_app. now left. }
    eapply Permutation_in in Hi'; [| symmetry; exact Hperm].
    apply in_seq in Hi'. lia.
Qed.

(** With [n] the number of rows, a draw of a size within [0..n] returns
    a score. *)
Lemma draw_score_ok (embeddings : list P) (n size : Z) (g : G) :
  n = Z.of_nat (length embeddings) -> 0 <= size <= n ->
  exists w g', draw_score embeddings n size g = (Ok w, g').
Proof.
  intros Hn Hsize. unfold draw_score, bind.
  rewrite np_random_choice_ok by exact Hsize.
  destruct (take_rows_ok embeddings
              (firstn (Z.to_nat size) (fst (permutation g (Z.to_nat n)))))
    as [rows Hrows].
  - intros i Hi.
    assert (Hi' : In i (fst (permutation g (Z.to_nat n)))).
    { rewrite <- (firstn_skipn (Z.to_nat size)). apply in_or_app. now left. }
    clear Hi. rename Hi' into Hi.
    eapply Permutation_in in Hi; [| symmetry; apply permutation_perm].
    apply in_seq in Hi. lia.
  - unfold lift. rewrite Hrows. unfold ret. eauto.
Qed.

(** With [n] the number of rows and [0 <= hat_n <= n], [sample_and_score]
    returns: the sizes of line 108 and one score for each. *)
Lemma sample_and_score_ok (embeddings : list P) (n k hat_n J : Z) (g : G) :
  n = Z.of_nat (length embeddings) -> 0 <= hat_n <= n ->
  exists scores g',
    sample_and_score embeddings n k hat_n J g
    = (Ok (sample_sizes n k hat_n, scores), g').
Proof.
  intros Hn Hhat. unfold sample_and_score, bind.
  destruct (@for_each_ok G Z W
              (fun size =>
                 subset_scores <- for_each (range 0 J)
                                    (fun _ => draw_score embeddings n size) ;;
                 ret (np_median subset_scores))
              (sample_sizes n k hat_n)) with (s := g) as [scores [g' Hrun]].
  - intros size Hsize s. unfold bind.
    destruct (@for_each_ok G Z W (fun _ => draw_score embeddings n size)
                (range 0 J)) with (s := s) as [ws [s' Hws]].
    + intros _ _ s1. apply draw_score_ok; [exact Hn |].
      apply sizes_in_bounds in Hsize; lia.
    + rewrite Hws. unfold ret. eauto.
  - unfold bind in Hrun. rewrite Hrun. unfold ret. eauto.
Qed.

End Facts.

(** The stepped generator returns permutations. *)
Lemma counter_rng_laws : @RandomStateLaws nat Demo.counter_rng.
Proof.
  constructor. intros g n. cbn. unfold Demo.rotation.
  rewrite <- (firstn_skipn (Nat.modulo g n) (seq 0 n)) at 1.
  apply Permutation_app_comm.
Qed.

End SubsamplerFacts.

(** ** The Dimension Estimator *)

Module EstimatorFacts.
Import Estimator.

Section Facts.
Context `{Libm} `{Lstsq}.

(** The logarithm of a score that is zero or negative is not finite. *)
Lemma np_log_nonpositive (x : float) :
  (x <=? 0)%float = true -> is_finite (np_log x) = false.
Proof.
  intros Hle. unfold np_log.
  destruct (is_nan x); [reflexivity |].
  rewrite leb_spec in Hle. rewrite ltb_spec, eqb_spec.
  unfold SFleb in Hle. unfold SFltb, SFeqb.
  destruct (SFcompare (Prim2SF x) (Prim2SF 0)) as [[| |] |];
    try discriminate; reflexivity.
Qed.

Lemma all_finite_In (l : list float) (x : float) :
  In x l -> is_finite x = false -> F64.all_finite l = false.
Proof.
  intros Hin Hx. unfold F64.all_finite.
  destruct (forallb is_finite l) eqn:Hall; [| reflexivity].
  rewrite forallb_forall in Hall. specialize (Hall x Hin). congruence.
Qed.

(** scikit-learn refuses a target that is not finite. *)
Lemma LinearRegression_fit_rejects (X y : list float) :
  F64.all_finite y = false -> LinearRegression_fit X y = Raise ValueError.
Proof.
  intros Hy. unfold LinearRegression_fit. rewrite Hy. cbn [negb].
  destruct (negb (F64.all_finite X)); [reflexivity |].
  destruct (Nat.eqb (length X) 0); reflexivity.
Qed.

(** A fit that succeeds saw finite logarithms on both sides. *)
Lemma LinearRegression_fit_ok (X y : list float) (slope : float) :
  LinearRegression_fit X y = Ok slope ->
  F64.all_finite X = true /\ F64.all_finite y = true /\
  length X = length y /\ slope = ols_slope X y.
Proof.
  unfold LinearRegression_fit. intros Hfit.
  destruct (F64.all_finite X); [| discriminate].
  destruct (Nat.eqb (length X) 0); [discriminate |].
  destruct (F64.all_finite y); [| discriminate].
  destruct (Nat.eqb_spec (length X) (length y)); [| discriminate].
  cbn in Hfit. inversion Hfit. auto.
Qed.

End Facts.
End EstimatorFacts.

(** ** The Multi-run Aggregator *)

Module AggregatorFacts.
Import Aggregator.

Section Facts.
Context {G : Type} `{RandomState G} `{Libm} `{Lstsq} `{TorchFiles}.

Lemma run_body_one_slope (embeddings : list (list float)) (n : Z)
  (slopes : list float) (w : world G) :
  run_body embeddings n slopes w
  = match one_slope embeddings n (rng w) with
    | (Ok slope, g') => (Ok (slopes ++ [slope]), set_rng w g')
    | (Raise e, g') => (Raise e, set_rng w g')
    end.
Proof.
  unfold run_body, one_slope, with_rng, bind, lift, ret, set_rng.
  destruct (Subsampler.sample_and_score _ _ _ _ _ (rng w)) as [[ss | e] g'];
    [| reflexivity].
  cbn [rng loaded stdout].
  destruct (Estimator.LinearRegression_fit _ _); reflexivity.
Qed.



(** [get_embeddings] reads one path, whatever it returns. *)
Lemma get_embeddings_world (int_name emb_dir : String.string) (w : world G) :
  snd (get_embeddings int_name emb_dir w)
  = {| rng := rng w;
       loaded := loaded w ++ [the_path int_name emb_dir];
       stdout := stdout w |}.
Proof.
  unfold get_embeddings.
  destruct (torch_load _) as [d | e]; [| reflexivity].
  destruct (getitem _ d _); reflexivity.
Qed.

End Facts.
End AggregatorFacts.

(** ** The program on small inputs *)

Module Examples.
Import Demo.

(** Points at unit spacing on a line: the tree is the path, of weight
    [M - 1]. *)
Example unit_line_score :
  Scorer.compute_persistent_score [0; 1; 2; 3; 4; 5]%Z = 5%Z.
Proof. reflexivity. Qed.

Example unit_line_score_float64 :
  Scorer.compute_persistent_score
    [[0; 0]; [1; 0]; [2; 0]; [3; 0]]%float = 3%float.
Proof. vm_compute. reflexivity. Qed.

(** The entries kept for five points on a line, in row-major order. *)
Example line_tree :
  Scorer.minimum_spanning_tree
    (Scorer.distance_matrix [0; 1; 2; 3; 7]%Z [0; 1; 2; 3; 7]%Z)
  = [(0%nat, 1%nat, 1%Z); (1%nat, 2%nat, 1%Z); (2%nat, 3%nat, 1%Z);
     (3%nat, 4%nat, 4%Z)].
Proof. reflexivity. Qed.

(** A right triangle with sides 3, 4, 5, and a point twice. *)
Example triangle_score :
  Scorer.compute_persistent_score [[0; 0]; [3; 0]; [3; 4]]%float = 7%float.
Proof. vm_compute. reflexivity. Qed.

Example coincident_points_score :
  Scorer.compute_persistent_score [[1; 2]; [1; 2]]%float = 0%float.
Proof. vm_compute. reflexivity. Qed.

(** Two sizes, three draws each, on three points. *)
Example sample_and_score_run :
  Subsampler.sample_and_score three_points 3 2 2 3 0%nat
  = (Ok ([2; 2], [2; 2]%float), 6%nat).
Proof. vm_compute. reflexivity. Qed.

(** Scores that grow as the square root of the size: slope 1/2,
    dimension 2. *)
Example square_root_scores :
  Estimator.estimate_dimension four_sizes
    (map (fun n => PrimFloat.sqrt (F64.of_Z n)) four_sizes) = Ok 2%float.
Proof. vm_compute. reflexivity. Qed.

Example strip_name : Aggregator.strip int_name_A = stripped_A.
Proof. reflexivity. Qed.

Example load_A :
  Aggregator.get_embeddings int_name_A emb_root world0
  = (Ok squares_tensor,
     {| Aggregator.rng := 0%nat; Aggregator.loaded := [path_A];
        Aggregator.stdout := [] |}).
Proof. reflexivity. Qed.

End Examples.

(* ================================================================== *)
(** * Part III: the statements of the specification *)
(* ================================================================== *)

Module Claims.
Import Subsampler SizeFacts SubsamplerFacts.

(** *** Size generation *)

Section SizeGeneration.
Context {P W G : Type} `{Weight W} `{Metric P W} `{Median W} `{RandomState G}.

(** C1. For every embedding count [N], every [k >= 1] and every [hat_n],
    [sample_and_score] generates exactly [k] sizes, the [i]-th of them
    (for [i = 1..k]) being [floor((i-1) * (N - hat_n) / k) + hat_n]; the
    list it returns is this list; for [N=1022, k=8, hat_n=40] the first
    size is 40 and the eighth is 899. *)
Theorem sample_and_score_sizes_formula
  (embeddings : list P) (N k hat_n J : Z) (g : G) :
  1 <= k ->
  Z.of_nat (length (sample_sizes N k hat_n)) = k /\
  (forall i, 1 <= i <= k ->
     nth_error (sample_sizes N k hat_n) (Z.to_nat (i - 1))
     = Some ((i - 1) * (N - hat_n) / k + hat_n)) /\
  (forall szs scs g',
     sample_and_score embeddings N k hat_n J g = (Ok (szs, scs), g') ->
     szs = sample_sizes N k hat_n) /\
  sample_sizes 1022 8 40 = [40; 162; 285; 408; 531; 653; 776; 899].
Proof.
  intros Hk. split; [| split; [| split]].
  - rewrite length_sample_sizes. lia.
  - intros i Hi. rewrite nth_error_sample_sizes by lia.
    replace (Z.of_nat (Z.to_nat (i - 1))) with (i - 1) by lia. reflexivity.
  - intros szs scs g' Hrun.
    now apply sample_and_score_returns in Hrun.
  - reflexivity.
Qed.

(** C3, amended. For [N >= hat_n >= 2] and [k >= 1] the sizes never
    decrease, none exceeds [N], and the first is [hat_n]; they increase
    strictly exactly when [k = 1] or there are at least [k] spare
    points, [k <= N - hat_n]. *)
Theorem sample_sizes_increasing_iff (N k hat_n : Z) :
  2 <= hat_n <= N -> 1 <= k ->
  non_decreasing (sample_sizes N k hat_n) /\
  (forall s, In s (sample_sizes N k hat_n) -> s <= N) /\
  hd_error (sample_sizes N k hat_n) = Some hat_n /\
  (strictly_increasing (sample_sizes N k hat_n) <-> k = 1 \/ k <= N - hat_n).
Proof.
  intros HN Hk. split; [| split; [| split; [| split]]].
  - apply sizes_non_decreasing. lia.
  - intros s Hs. apply sizes_in_bounds in Hs; lia.
  - now apply sizes_head.
  - intros Hinc.
    destruct (Z.eq_dec k 1) as [-> | Hk1]; [now left | right].
    destruct (Z_le_gt_dec k (N - hat_n)) as [Hle | Hgt]; [exact Hle |].
    destruct (@sizes_first_two_equal N k hat_n) as [H0' H1']; [lia | lia |].
    specialize (Hinc 0%nat 1%nat hat_n hat_n ltac:(lia) H0' H1'). lia.
  - intros [-> | Hle].
    + apply sizes_singleton_increasing.
    + now apply sizes_strictly_increasing.
Qed.

(** C10. For [k >= 1] and [0 <= hat_n <= N] every size lies between
    [hat_n] and [N], the sizes never decrease (the first two coincide
    when [2 <= k] and [N - hat_n < k]), and every draw of [size] indices
    out of [N] succeeds: [np.random.choice] does not raise, and (the
    generator returning permutations) what it draws is [size] distinct
    indices below [N]. *)
Theorem sample_sizes_always_drawable (N k hat_n : Z) :
  1 <= k -> 0 <= hat_n <= N ->
  (forall s, In s (sample_sizes N k hat_n) -> hat_n <= s <= N) /\
  non_decreasing (sample_sizes N k hat_n) /\
  (2 <= k -> N - hat_n < k ->
   nth_error (sample_sizes N k hat_n) 0 = nth_error (sample_sizes N k hat_n) 1) /\
  (forall s (g : G), In s (sample_sizes N k hat_n) ->
     np_random_choice N s g
     = (Ok (firstn (Z.to_nat s) (fst (permutation g (Z.to_nat N)))),
        snd (permutation g (Z.to_nat N)))) /\
  (@RandomStateLaws G _ ->
   forall s (g g' : G) idx, In s (sample_sizes N k hat_n) ->
     np_random_choice N s g = (Ok idx, g') ->
     length idx = Z.to_nat s /\ NoDup idx /\
     (forall i, In i idx -> (i < Z.to_nat N)%nat)).
Proof.
  intros Hk HN. split; [| split; [| split; [| split]]].
  - intros s Hs. apply sizes_in_bounds in Hs; lia.
  - apply sizes_non_decreasing. lia.
  - intros Hk2 Hd.
    destruct (@sizes_first_two_equal N k hat_n) as [H0' H1']; [lia | lia |].
    congruence.
  - intros s g Hs. apply np_random_choice_ok.
    apply sizes_in_bounds in Hs; lia.
  - intros Hlaws s g g' idx _ Hrun.
    eapply np_random_choice_draws, Hrun.
Qed.

(** C4, amended. [sample_and_score] checks nothing on entry. With
    [k < 1] it returns two empty lists and draws nothing; with [J < 1]
    (and any [k]) it returns the sizes with the median of no score for
    each and draws nothing; with [N] the number of rows and
    [0 <= hat_n <= N] ([hat_n] below 2 included) it returns the sizes
    and a score for each; with [k >= 1], [J >= 1] and [hat_n > N] the
    very first draw raises [ValueError], the generator being untouched. *)
Theorem sample_and_score_degenerate_inputs
  (embeddings : list P) (N k hat_n J : Z) (g : G) :
  (k < 1 -> sample_and_score embeddings N k hat_n J g = (Ok ([], []), g)) /\
  (J < 1 ->
   sample_and_score embeddings N k hat_n J g
   = (Ok (sample_sizes N k hat_n,
          map (fun _ => np_median []) (sample_sizes N k hat_n)), g)) /\
  (@RandomStateLaws G _ ->
   N = Z.of_nat (length embeddings) -> 0 <= hat_n <= N ->
   exists scores g',
     sample_and_score embeddings N k hat_n J g
     = (Ok (sample_sizes N k hat_n, scores), g')) /\
  (1 <= k -> 1 <= J -> N < hat_n ->
   sample_and_score embeddings N k hat_n J g = (Raise ValueError, g)).
Proof.
  split; [| split; [| split]].
  - apply sample_and_score_no_sizes.
  - apply sample_and_score_no_draws.
  - intros Hlaws. now apply sample_and_score_ok.
  - apply sample_and_score_first_draw_raises.
Qed.

End SizeGeneration.

Import Demo.

(** The hypotheses of C1 hold at the notebook's own run: 1022 rows and the
    default parameters. *)
Lemma sample_and_score_sizes_formula_witness :
  1 <= 8 /\
  (Z.of_nat (length (sample_sizes 1022 8 40)) = 8 /\
   (forall i, 1 <= i <= 8 ->
      nth_error (sample_sizes 1022 8 40) (Z.to_nat (i - 1))
      = Some ((i - 1) * (1022 - 40) / 8 + 40)) /\
   (forall szs scs g',
      sample_and_score three_points 1022 8 40 7 0%nat = (Ok (szs, scs), g') ->
      szs = sample_sizes 1022 8 40) /\
   sample_sizes 1022 8 40 = [40; 162; 285; 408; 531; 653; 776; 899]).
Proof.
  split; [lia |].
  apply (@sample_and_score_sizes_formula (list float) float nat _ _ _ _
           three_points 1022 8 40 7 0%nat).
  lia.
Defined.

(** C3 as stated fails: with exactly [hat_n = 40] rows and the default
    [k = 8], all eight sizes are 40. *)
Lemma sample_sizes_not_strictly_increasing :
  2 <= 40 <= 40 /\ 1 <= 8 /\
  sample_sizes 40 8 40 = [40; 40; 40; 40; 40; 40; 40; 40] /\
  ~ strictly_increasing (sample_sizes 40 8 40).
Proof.
  repeat split; try lia.
  intros Hinc.
  specialize (Hinc 0%nat 1%nat 40 40 ltac:(lia) eq_refl eq_refl). lia.
Qed.

Lemma sample_sizes_increasing_iff_witness :
  (2 <= 40 <= 1022 /\ 1 <= 8) /\
  (non_decreasing (sample_sizes 1022 8 40) /\
   (forall s, In s (sample_sizes 1022 8 40) -> s <= 1022) /\
   hd_error (sample_sizes 1022 8 40) = Some 40 /\
   (strictly_increasing (sample_sizes 1022 8 40) <-> 8 = 1 \/ 8 <= 1022 - 40)).
Proof.
  split; [lia |].
  apply (@sample_sizes_increasing_iff 1022 8 40); lia.
Defined.

Lemma sample_sizes_always_drawable_witness :
  (1 <= 8 /\ 0 <= 40 <= 45) /\
  ((forall s, In s (sample_sizes 45 8 40) -> 40 <= s <= 45) /\
   non_decreasing (sample_sizes 45 8 40) /\
   (2 <= 8 -> 45 - 40 < 8 ->
    nth_error (sample_sizes 45 8 40) 0 = nth_error (sample_sizes 45 8 40) 1) /\
   (forall s (g : nat), In s (sample_sizes 45 8 40) ->
      np_random_choice 45 s g
      = (Ok (firstn (Z.to_nat s) (fst (permutation g (Z.to_nat 45)))),
         snd (permutation g (Z.to_nat 45)))) /\
   (@RandomStateLaws nat _ ->
    forall s (g g' : nat) idx, In s (sample_sizes 45 8 40) ->
      np_random_choice 45 s g = (Ok idx, g') ->
      length idx = Z.to_nat s /\ NoDup idx /\
      (forall i, In i idx -> (i < Z.to_nat 45)%nat))).
Proof.
  split; [lia |].
  apply (@sample_sizes_always_drawable nat _ 45 8 40); lia.
Defined.

(** C4 as stated fails: [k = 0], [J = 0] and [hat_n = 1] are all accepted
    without an exception. *)
Lemma sample_and_score_accepts_degenerate :
  sample_and_score three_points 3 0 2 1 0%nat = (Ok ([], []), 0%nat) /\
  sample_and_score three_points 3 1 2 0 0%nat = (Ok ([2], [nan]), 0%nat) /\
  sample_and_score three_points 3 1 1 1 0%nat = (Ok ([1], [0%float]), 1%nat).
Proof. repeat split; vm_compute; reflexivity. Qed.

(** The error scenario of the specification, [hat_n = 40] with [N = 20],
    and a call with [hat_n = 1] that returns. *)
Lemma sample_and_score_degenerate_inputs_witness :
  ((1 <= 8 /\ 1 <= 7 /\ 20 < 40) /\
   sample_and_score three_points 20 8 40 7 0%nat = (Raise ValueError, 0%nat)) /\
  ((3 = Z.of_nat (length three_points) /\ 0 <= 1 <= 3) /\
   exists scores g',
     sample_and_score three_points 3 1 1 1 0%nat
     = (Ok (sample_sizes 3 1 1, scores), g')).
Proof.
  split; (split; [cbn; lia |]).
  - apply (@sample_and_score_degenerate_inputs (list float) float nat _ _ _ _
             three_points 20 8 40 7 0%nat); lia.
  - apply (@sample_and_score_degenerate_inputs (list float) float nat _ _ _ _
             three_points 3 1 1 1 0%nat);
      [exact counter_rng_laws | reflexivity | lia].
Defined.

(** *** The Dimension Estimator *)

Section DimensionEstimator.
Context `{Libm} `{Lstsq}.
Import Estimator EstimatorFacts.

(** C5, amended. When the fitted log-log slope equals 1,
    [estimate_dimension] raises nothing: it evaluates [1 / (1 - slope)]
    in float64 arithmetic and returns the infinity that [1 / 0] is. *)
Theorem estimate_dimension_slope_one (sizes : list Z) (scores : list float) :
  LinearRegression_fit (map np_log (map F64.of_Z sizes)) (map np_log scores)
  = Ok 1%float ->
  estimate_dimension sizes scores = Ok infinity.
Proof.
  intros Hfit. unfold estimate_dimension. rewrite Hfit. reflexivity.
Qed.

(** C6. Whenever a score is zero or negative, [estimate_dimension]
    raises: the logarithm of that score is [-inf] or [nan], and the
    regression refuses a target that is not finite with a [ValueError]. *)
Theorem estimate_dimension_nonpositive_score
  (sizes : list Z) (scores : list float) (s : float) :
  In s scores -> (s <=? 0)%float = true ->
  estimate_dimension sizes scores = Raise ValueError.
Proof.
  intros Hin Hle. unfold estimate_dimension.
  rewrite LinearRegression_fit_rejects; [reflexivity |].
  apply all_finite_In with (x := np_log s).
  - now apply in_map.
  - now apply np_log_nonpositive.
Qed.

End DimensionEstimator.

(** C5 as stated fails: on scores equal to the sizes the closed-form
    least-squares slope is exactly 1, and what comes back is [Ok] of an
    infinity. *)
Lemma estimate_dimension_returns_infinity :
  Estimator.LinearRegression_fit
    (map Estimator.np_log (map F64.of_Z four_sizes))
    (map Estimator.np_log (map F64.of_Z four_sizes)) = Ok 1%float /\
  Estimator.estimate_dimension four_sizes (map F64.of_Z four_sizes)
  = Ok infinity.
Proof. split; vm_compute; reflexivity. Qed.

Lemma estimate_dimension_slope_one_witness :
  Estimator.LinearRegression_fit
    (map Estimator.np_log (map F64.of_Z four_sizes))
    (map Estimator.np_log (map F64.of_Z four_sizes)) = Ok 1%float /\
  Estimator.estimate_dimension four_sizes (map F64.of_Z four_sizes)
  = Ok infinity.
Proof.
  split; [vm_compute; reflexivity |].
  apply (@estimate_dimension_slope_one _ _ four_sizes (map F64.of_Z four_sizes)).
  vm_compute; reflexivity.
Defined.

(** A zero score (two coincident points) and a negative one. *)
Lemma estimate_dimension_nonpositive_score_witness :
  (In 0%float [1%float; 0%float; 2%float; 3%float] /\
   (0 <=? 0)%float = true) /\
  Estimator.estimate_dimension four_sizes [1%float; 0%float; 2%float; 3%float]
  = Raise ValueError.
Proof.
  split; [split; [cbn; auto | reflexivity] |].
  apply (@estimate_dimension_nonpositive_score _ _ four_sizes
           [1%float; 0%float; 2%float; 3%float] 0%float).
  - cbn; auto.
  - reflexivity.
Defined.

(** *** The Multi-run Aggregator *)

Section MultiRun.
Context {G : Type} `{RandomState G} `{Libm} `{Lstsq} `{TorchFiles}.
Import Aggregator AggregatorFacts.


End MultiRun.


(** *** Randomness *)

Section Seeding.
Context {P W G : Type} `{Weight W} `{Metric P W} `{Median W} `{RandomState G}.


End Seeding.


(** *** The scorer on degenerate point sets *)

Section FewPoints.
Context {P W : Type} `{Weight W} `{Metric P W}.
Import Scorer.

(** C9, amended. On the empty point set [compute_persistent_score]
    raises nothing: the distance matrix has no entry, the spanning tree
    is empty, and the sum of no entry, zero, is returned; it is the value
    returned for a single point too. *)
Theorem compute_persistent_score_few_points :
  compute_persistent_score (@nil P) = w0 /\
  (forall p : P, compute_persistent_score [p] = w0).
Proof.
  split; [reflexivity |].
  intros p.
  unfold compute_persistent_score, minimum_spanning_tree, distance_matrix.
  cbn [map]. unfold csr_entries, enumerate. cbn [length seq combine flat_map fst snd].
  destruct (wnull (dist p p)); reflexivity.
Qed.

End FewPoints.

(** C9 as stated fails: the score of no point is the float 0, and a size
    of zero ([hat_n = 0]) goes through [sample_and_score] with that
    score. *)
Lemma compute_persistent_score_of_no_point :
  @Scorer.compute_persistent_score (list float) float _ _ [] = 0%float /\
  sample_and_score three_points 3 1 0 1 0%nat = (Ok ([0], [0%float]), 1%nat).
Proof. split; vm_compute; reflexivity. Qed.

(** *** Row order *)

Section RowOrder.
Context {P W : Type} `{Weight W} `{Metric P W} {laws : @WeightLaws W _}.
Import Scorer ScorerFacts.


End RowOrder.


End Claims.

(* ================================================================== *)
(** * Part IV: further properties of the code *)
(* ================================================================== *)

(** ** More on the Subsampler *)

Module SubsamplerMore.
Import Subsampler SizeFacts SubsamplerFacts Vocabulary.

(** Below [N], strictly: the quotient [j * d / k] for [0 <= j < k] and
    [0 < d]. *)
Lemma step_below (j d k : Z) : 0 <= j < k -> 0 < d -> j * d / k < d.
Proof.
  intros Hj Hd. apply Z.div_lt_upper_bound; nia.
Qed.

Section Facts.
Context {P W G : Type} `{Weight W} `{Metric P W} `{Median W} `{RandomState G}.

Lemma for_each_ext {S A B} (f f' : A -> M S B) (xs : list A) :
  (forall x s, In x xs -> f x s = f' x s) ->
  forall s, for_each xs f s = for_each xs f' s.
Proof.
  induction xs as [| x xs IH]; intros Hf s; cbn [for_each]; [reflexivity |].
  unfold bind. rewrite Hf by now left.
  destruct (f' x s) as [[y | e] s1]; [| reflexivity].
  rewrite IH; [reflexivity |]. intros x' s' Hx'. apply Hf. now right.
Qed.

(** A loop raises what one of its passes raises. *)
Lemma for_each_raises {S A B} (Q : exn -> Prop) (f : A -> M S B) (xs : list A) :
  (forall x s e s', In x xs -> f x s = (Raise e, s') -> Q e) ->
  forall s e s', for_each xs f s = (Raise e, s') -> Q e.
Proof.
  induction xs as [| x xs IH]; intros Hf s e s' Hrun; cbn [for_each] in Hrun.
  - discriminate.
  - unfold bind in Hrun.
    destruct (f x s) as [[y | e1] s1] eqn:Hx.
    + destruct (for_each xs f s1) as [[ys | e2] s2] eqn:Hrest.
      * discriminate.
      * inversion Hrun; subst. eapply IH; [| exact Hrest].
        intros x' s0 e0 s0' Hx'. apply Hf. now right.
    + inversion Hrun; subst. eapply Hf; [now left | exact Hx].
Qed.

(** A loop whose passes each step the state by [step], steps it once per
    pass. *)
Lemma for_each_steps {S A B} (step : S -> S) (f : A -> M S B) (xs : list A) :
  (forall x s y s', In x xs -> f x s = (Ok y, s') -> s' = step s) ->
  forall s ys s', for_each xs f s = (Ok ys, s') ->
                  s' = Nat.iter (length xs) step s.
Proof.
  induction xs as [| x xs IH]; intros Hf s ys s' Hrun; cbn [for_each] in Hrun.
  - inversion Hrun. reflexivity.
  - unfold bind in Hrun.
    destruct (f x s) as [[y | e1] s1] eqn:Hx; [| discriminate].
    destruct (for_each xs f s1) as [[ys1 | e2] s2] eqn:Hrest; [| discriminate].
    inversion Hrun; subst.
    apply Hf in Hx; [| now left]. subst s1.
    cbn [length]. rewrite Nat.iter_succ_r.
    eapply IH; [| exact Hrest].
    intros x' s0 y0 s0' Hx'. apply Hf. now right.
Qed.

Lemma np_random_choice_raises (a size : Z) (g g' : G) (e : exn) :
  np_random_choice a size g = (Raise e, g') -> e = ValueError /\ g' = g.
Proof.
  unfold np_random_choice.
  destruct ((size >? a) || (size <? 0)).
  - intros Hrun. inversion Hrun. auto.
  - destruct (permutation g (Z.to_nat a)). discriminate.
Qed.

Lemma np_random_choice_state (a size : Z) (g g' : G) (idx : list nat) :
  np_random_choice a size g = (Ok idx, g') -> g' = advance a g.
Proof.
  unfold np_random_choice, advance.
  destruct ((size >? a) || (size <? 0)); [discriminate |].
  destruct (permutation g (Z.to_nat a)). intros Hrun. now inversion Hrun.
Qed.

Lemma draw_score_state (embeddings : list P) (n size : Z) (g g' : G) (w : W) :
  draw_score embeddings n size g = (Ok w, g') -> g' = advance n g.
Proof.
  unfold draw_score, bind. intros Hrun.
  destruct (np_random_choice n size g) as [[idx | e] g1] eqn:Hc; [| discriminate].
  apply np_random_choice_state in Hc. subst g1.
  unfold lift in Hrun.
  destruct (take_rows embeddings idx); [| discriminate].
  unfold ret in Hrun. now inversion Hrun.
Qed.

(** A loop with a pass that raises in every state, raises. *)
Lemma for_each_raises_at {S A B} (f : A -> M S B) (xs : list A) (x : A) :
  In x xs -> (forall s, exists e s', f x s = (Raise e, s')) ->
  forall s, exists e s', for_each xs f s = (Raise e, s').
Proof.
  induction xs as [| y xs IH]; intros Hin Hx s; [contradiction |].
  cbn [for_each]. unfold bind.
  destruct (f y s) as [[r | e] s1] eqn:Hy; [| eauto].
  destruct Hin as [-> | Hin].
  - destruct (Hx s) as [e [s' He]]. congruence.
  - destruct (IH Hin Hx s1) as [e [s' He]]. rewrite He. eauto.
Qed.

(** A size outside [0..n] makes the draw raise, in every state. *)
Lemma draw_score_out_of_range (embeddings : list P) (n size : Z) (g : G) :
  size < 0 \/ n < size ->
  draw_score embeddings n size g = (Raise ValueError, g).
Proof.
  intros Hout. unfold draw_score, bind, np_random_choice.
  destruct (Z.gtb_spec size n), (Z.ltb_spec size 0); cbn [orb];
    try reflexivity; lia.
Qed.

(** Rows from position [m] on are out of reach of indices below [m]. *)
Lemma take_rows_firstn (embeddings : list P) (m : nat) (idx : list nat) :
  (forall i, In i idx -> (i < m)%nat) ->
  take_rows (firstn m embeddings) idx = take_rows embeddings idx.
Proof.
  induction idx as [| i idx IH]; intros Hidx; cbn [take_rows]; [reflexivity |].
  rewrite nth_error_firstn.
  destruct (Nat.ltb_spec i m) as [_ | Hge].
  - rewrite IH; [reflexivity |]. intros j Hj. apply Hidx. now right.
  - specialize (Hidx i (or_introl eq_refl)). lia.
Qed.

Section Lawful.
Context {rng_laws : @RandomStateLaws G _}.

Lemma draw_score_firstn (embeddings : list P) (n size : Z) (g : G) :
  draw_score (firstn (Z.to_nat n) embeddings) n size g
  = draw_score embeddings n size g.
Proof.
  unfold draw_score, bind.
  destruct (np_random_choice n size g) as [[idx | e] g1] eqn:Hc; [| reflexivity].
  apply np_random_choice_draws in Hc. destruct Hc as [_ [_ Hidx]].
  unfold lift. now rewrite take_rows_firstn.
Qed.

(** With [n] the number of rows, a draw raises nothing but the
    [ValueError] of [np.random.choice]. *)
Lemma draw_score_raises (embeddings : list P) (n size : Z) (g g' : G) (e : exn) :
  n = Z.of_nat (length embeddings) ->
  draw_score embeddings n size g = (Raise e, g') -> e = ValueError.
Proof.
  intros Hn. unfold draw_score, bind.
  destruct (np_random_choice n size g) as [[idx | e1] g1] eqn:Hc.
  - apply np_random_choice_draws in Hc. destruct Hc as [_ [_ Hidx]].
    destruct (take_rows_ok embeddings idx) as [rows Hrows].
    + intros i Hi. apply Hidx in Hi. lia.
    + unfold lift. rewrite Hrows. discriminate.
  - apply np_random_choice_raises in Hc. destruct Hc as [-> _].
    intros Hrun. now inversion Hrun.
Qed.

Lemma sample_and_score_raises (embeddings : list P) (n k hat_n J : Z)
  (g g' : G) (e : exn) :
  n = Z.of_nat (length embeddings) ->
  sample_and_score embeddings n k hat_n J g = (Raise e, g') -> e = ValueError.
Proof.
  intros Hn. unfold sample_and_score, bind at 1. intros Hrun.
  destruct (for_each (sample_sizes n k hat_n) _ g) as [[scores | e1] g1] eqn:Hloop;
    [discriminate |].
  inversion Hrun; subst e1 g1. clear Hrun.
  eapply (@for_each_raises G Z W (fun x => x = ValueError)); [| exact Hloop].
  intros size s e1 s1 _ Hbody. unfold bind in Hbody.
  destruct (for_each (range 0 J) _ s) as [[ws | e2] s2] eqn:Hin; [discriminate |].
  inversion Hbody; subst e2 s2. clear Hbody.
  eapply (@for_each_raises G Z W (fun x => x = ValueError)); [| exact Hin].
  intros x0 s0 e0 s0' _. now apply draw_score_raises.
Qed.

End Lawful.

End Facts.
End SubsamplerMore.

(** ** More properties: the Subsampler *)

Module SubsamplerProperties.
Import Subsampler SizeFacts SubsamplerFacts SubsamplerMore Vocabulary.

Section Properties.
Context {P W G : Type} `{Weight W} `{Metric P W} `{Median W} `{RandomState G}.

(** X1. When fewer than all points are the floor ([hat_n < N]), every
    size is at least [hat_n] and strictly below [N]: no subset is ever
    the whole point set. *)
Theorem sample_sizes_below_N (N k hat_n s : Z) :
  1 <= k -> hat_n < N -> In s (sample_sizes N k hat_n) -> hat_n <= s < N.
Proof.
  intros Hk HN Hin.
  apply In_nth_error in Hin. destruct Hin as [j Hj].
  apply nth_error_sample_sizes_inv in Hj. destruct Hj as [Hj ->].
  pose proof (@step_bounds (Z.of_nat j) (N - hat_n) k).
  pose proof (@step_below (Z.of_nat j) (N - hat_n) k).
  lia.
Qed.

(** X2. Whenever [sample_and_score] returns, the two lists are aligned:
    [k] sizes and [k] scores (none when [k <= 0]). *)
Theorem sample_and_score_aligned (embeddings : list P) (n k hat_n J : Z)
  (g g' : G) (szs : list Z) (scs : list W) :
  sample_and_score embeddings n k hat_n J g = (Ok (szs, scs), g') ->
  length szs = Z.to_nat k /\ length scs = Z.to_nat k.
Proof.
  intros Hrun. apply sample_and_score_returns in Hrun.
  destruct Hrun as [-> Hlen]. rewrite Hlen.
  split; apply length_sample_sizes.
Qed.

(** X3. Whenever [sample_and_score] returns, the global generator has
    been stepped exactly [k * J] times, each time by one permutation of
    [range(n)], whatever the sizes and the rows. *)
Theorem sample_and_score_generator_steps (embeddings : list P) (n k hat_n J : Z)
  (g g' : G) (r : list Z * list W) :
  sample_and_score embeddings n k hat_n J g = (Ok r, g') ->
  g' = Nat.iter (Z.to_nat k * Z.to_nat J) (advance n) g.
Proof.
  unfold sample_and_score, bind at 1. intros Hrun.
  destruct (for_each (sample_sizes n k hat_n) _ g) as [[scores | e1] g1] eqn:Hloop;
    [| discriminate].
  unfold ret in Hrun. inversion Hrun; subst g1. clear Hrun.
  apply for_each_steps with (step := Nat.iter (Z.to_nat J) (advance n)) in Hloop.
  - rewrite Hloop, length_sample_sizes.
    generalize (Z.to_nat k) as a. intros a.
    induction a as [| a IH]; [reflexivity |].
    cbn [Nat.mul]. rewrite Nat.iter_add, Nat.iter_succ, IH. reflexivity.
  - intros size s y s' _ Hbody. unfold bind in Hbody.
    destruct (for_each (range 0 J) _ s) as [[ws | e2] s2] eqn:Hin; [| discriminate].
    unfold ret in Hbody. inversion Hbody; subst s2.
    apply for_each_steps with (step := advance n) in Hin.
    + rewrite Hin, length_range. f_equal. f_equal. lia.
    + intros x0 s0 w0' s0' _. apply draw_score_state.
Qed.

(** X4. [n] is trusted: with a generator that returns permutations, the
    rows from position [n] on are never read, and the call is the call
    on the first [n] rows. *)
Theorem sample_and_score_ignores_rows_past_n
  (embeddings : list P) (n k hat_n J : Z) (g : G) :
  @RandomStateLaws G _ ->
  sample_and_score (firstn (Z.to_nat n) embeddings) n k hat_n J g
  = sample_and_score embeddings n k hat_n J g.
Proof.
  intros Hlaws. unfold sample_and_score, bind at 1 3.
  erewrite for_each_ext; [reflexivity |].
  intros size s _. unfold bind.
  erewrite for_each_ext; [reflexivity |].
  intros x0 s0 _. apply draw_score_firstn.
Qed.

(** X5. With [n] the number of rows and a generator that returns
    permutations, [sample_and_score] raises exactly when [k >= 1],
    [J >= 1] and one of the sizes of line 108 lies outside [0..n]; what
    it raises is [ValueError]; otherwise it returns those sizes with a
    score for each. *)
Theorem sample_and_score_raises_iff
  (embeddings : list P) (n k hat_n J : Z) (g : G) :
  @RandomStateLaws G _ -> n = Z.of_nat (length embeddings) ->
  ((1 <= k /\ 1 <= J /\
    exists s, In s (sample_sizes n k hat_n) /\ (s < 0 \/ n < s)) ->
   exists g', sample_and_score embeddings n k hat_n J g = (Raise ValueError, g')) /\
  ((k < 1 \/ J < 1 \/
    forall s, In s (sample_sizes n k hat_n) -> 0 <= s <= n) ->
   exists scores g',
     sample_and_score embeddings n k hat_n J g
     = (Ok (sample_sizes n k hat_n, scores), g')).
Proof.
  intros Hlaws Hn. split.
  - intros [Hk [HJ [size [Hin Hout]]]].
    destruct (@for_each_raises_at G Z W
                (fun size =>
                   subset_scores <- for_each (range 0 J)
                                      (fun _ => draw_score embeddings n size) ;;
                   ret (np_median subset_scores))
                (sample_sizes n k hat_n) size Hin) with (s := g)
      as [e [g' Hrun]].
    + intros s. rewrite (@range_cons 0 J) by lia.
      cbn [for_each]. unfold bind.
      rewrite draw_score_out_of_range by exact Hout. eauto.
    + exists g'.
      assert (Hall : sample_and_score embeddings n k hat_n J g = (Raise e, g')).
      { unfold sample_and_score, bind. unfold bind in Hrun.
        now rewrite Hrun. }
      rewrite Hall. f_equal. f_equal.
      eapply sample_and_score_raises; [exact Hn | exact Hall].
  - intros [Hk | [HJ | Hsizes]].
    + rewrite sample_and_score_no_sizes by exact Hk.
      unfold sample_sizes. rewrite range_empty by lia. cbn [map]. eauto.
    + rewrite sample_and_score_no_draws by exact HJ. eauto.
    + unfold sample_and_score, bind.
      destruct (@for_each_ok G Z W
                  (fun size =>
                     subset_scores <- for_each (range 0 J)
                                        (fun _ => draw_score embeddings n size) ;;
                     ret (np_median subset_scores))
                  (sample_sizes n k hat_n)) with (s := g) as [scores [g' Hrun]].
      * intros size Hsize s. unfold bind.
        destruct (@for_each_ok G Z W (fun _ => draw_score embeddings n size)
                    (range 0 J)) with (s := s) as [ws [s' Hws]].
        -- intros x0 _ s1. apply draw_score_ok; [exact Hn |].
           now apply Hsizes.
        -- rewrite Hws. unfold ret. eauto.
      * unfold bind in Hrun. rewrite Hrun. unfold ret. eauto.
Qed.

End Properties.
End SubsamplerProperties.
(** ** More properties: the Multi-run Aggregator *)

Module AggregatorProperties.
Import Aggregator AggregatorFacts SubsamplerFacts SubsamplerMore Vocabulary.

Section Properties.
Context {G : Type} `{RandomState G} `{Libm} `{Lstsq} `{TorchFiles}.

(** The function, by what the load gave. *)
Lemma estimate_sequence_dimension_cases
  (int_name emb_dir : String.string) (runs : Z) (w : world G) :
  estimate_sequence_dimension int_name emb_dir runs w
  = match fst (get_embeddings int_name emb_dir w) with
    | Raise e => (Raise e, after_load w int_name emb_dir [])
    | Ok embeddings =>
        let n := Z.of_nat (length embeddings) in
        (slopes <- for_loop (range 0 runs)
                     (fun _ slopes => run_body embeddings n slopes) [] ;;
         ret (Estimator.dimension_of_slope (F64.np_mean slopes)))
          (after_load w int_name emb_dir [n])
    end.
Proof.
  unfold estimate_sequence_dimension, bind at 1.
  pose proof (get_embeddings_world int_name emb_dir w) as Hw.
  destruct (get_embeddings int_name emb_dir w) as [r w1].
  cbn [fst snd] in Hw |- *. subst w1.
  destruct r as [embeddings | e].
  - unfold bind at 1, print at 1. cbn [rng loaded stdout]. reflexivity.
  - unfold after_load. now rewrite app_nil_r.
Qed.

Lemma LinearRegression_fit_raises (X y : list float) (e : exn) :
  Estimator.LinearRegression_fit X y = Raise e -> e = ValueError.
Proof.
  unfold Estimator.LinearRegression_fit.
  repeat match goal with
         | |- context [if ?b then _ else _] => destruct b
         end; intros Hfit; now inversion Hfit.
Qed.

Lemma for_loop_raises {S A B} (Q : exn -> Prop) (body : A -> B -> M S B)
  (xs : list A) :
  (forall x acc s e s', body x acc s = (Raise e, s') -> Q e) ->
  forall acc s e s', for_loop xs body acc s = (Raise e, s') -> Q e.
Proof.
  intros Hbody. induction xs as [| x xs IH]; intros acc s e s' Hrun;
    cbn [for_loop] in Hrun.
  - discriminate.
  - unfold bind in Hrun.
    destruct (body x acc s) as [[acc1 | e1] s1] eqn:Hx.
    + eapply IH, Hrun.
    + inversion Hrun; subst. eapply Hbody, Hx.
Qed.

(** X6. When the load fails ([torch.load] raises, or the checkpoint has
    no ["representations"] or no layer 36), [estimate_sequence_dimension]
    raises that exception: one path has been read, nothing is printed
    and the generator is untouched. *)
Theorem estimate_sequence_dimension_load_error
  (int_name emb_dir : String.string) (runs : Z) (w : world G) (e : exn) :
  fst (get_embeddings int_name emb_dir w) = Raise e ->
  estimate_sequence_dimension int_name emb_dir runs w
  = (Raise e, {| rng := rng w;
                 loaded := loaded w ++ [the_path int_name emb_dir];
                 stdout := stdout w |}).
Proof.
  intros Hload. rewrite estimate_sequence_dimension_cases, Hload.
  unfold after_load. now rewrite app_nil_r.
Qed.

(** X7. With fewer than 40 rows and at least one run,
    [estimate_sequence_dimension] prints the number of rows and raises
    [ValueError] on the first draw (the default [hat_n = 40] exceeds
    [n]); the generator is untouched. *)
Theorem estimate_sequence_dimension_too_few_rows
  (int_name emb_dir : String.string) (runs : Z) (w : world G)
  (embeddings : list (list float)) :
  fst (get_embeddings int_name emb_dir w) = Ok embeddings ->
  (length embeddings < 40)%nat -> 1 <= runs ->
  estimate_sequence_dimension int_name emb_dir runs w
  = (Raise ValueError,
     {| rng := rng w;
        loaded := loaded w ++ [the_path int_name emb_dir];
        stdout := stdout w ++ [Z.of_nat (length embeddings)] |}).
Proof.
  intros Hload Hfew Hruns.
  rewrite estimate_sequence_dimension_cases, Hload. cbv zeta.
  rewrite (@range_cons 0 runs) by lia. cbn [for_loop].
  unfold bind at 1 2. rewrite run_body_one_slope.
  unfold one_slope, bind at 1.
  rewrite sample_and_score_first_draw_raises;
    unfold Subsampler.default_k, Subsampler.default_J,
      Subsampler.default_hat_n, after_load; cbn [rng]; try lia.
  reflexivity.
Qed.

(** X8. With [runs <= 0] nothing is sampled: the number of rows is
    printed, the generator is untouched, and the result is the [nan]
    that the mean of no slope gives. *)
Theorem estimate_sequence_dimension_no_runs
  (int_name emb_dir : String.string) (runs : Z) (w : world G)
  (embeddings : list (list float)) :
  fst (get_embeddings int_name emb_dir w) = Ok embeddings ->
  runs <= 0 ->
  estimate_sequence_dimension int_name emb_dir runs w
  = (Ok nan,
     {| rng := rng w;
        loaded := loaded w ++ [the_path int_name emb_dir];
        stdout := stdout w ++ [Z.of_nat (length embeddings)] |}).
Proof.
  intros Hload Hruns.
  rewrite estimate_sequence_dimension_cases, Hload. cbv zeta.
  rewrite range_empty by lia. reflexivity.
Qed.

(** X9. Once the embeddings are loaded, and with a generator that
    returns permutations, the only exception
    [estimate_sequence_dimension] can raise is [ValueError]: no row
    index is ever out of bounds. *)
Theorem estimate_sequence_dimension_only_ValueError
  (int_name emb_dir : String.string) (runs : Z) (w w' : world G)
  (embeddings : list (list float)) (e : exn) :
  @RandomStateLaws G _ ->
  fst (get_embeddings int_name emb_dir w) = Ok embeddings ->
  estimate_sequence_dimension int_name emb_dir runs w = (Raise e, w') ->
  e = ValueError.
Proof.
  intros Hlaws Hload.
  rewrite estimate_sequence_dimension_cases, Hload. cbv zeta.
  unfold bind at 1. intros Hrun.
  destruct (for_loop (range 0 runs) _ [] _) as [[slopes | e1] w1] eqn:Hloop;
    [discriminate |].
  inversion Hrun; subst e1 w1. clear Hrun.
  eapply (@for_loop_raises (world G) Z (list float) (fun x => x = ValueError));
    [| exact Hloop].
  intros x acc s e0 s' Hbody. cbv beta in Hbody.
  rewrite run_body_one_slope in Hbody.
  unfold one_slope, bind in Hbody.
  destruct (Subsampler.sample_and_score _ _ _ _ _ (rng s)) as [[ss | e1] g1] eqn:Hs.
  - unfold lift in Hbody.
    destruct (Estimator.LinearRegression_fit _ _) as [c | e2] eqn:Hfit;
      [discriminate |].
    inversion Hbody; subst e2. eapply LinearRegression_fit_raises, Hfit.
  - inversion Hbody; subst e1.
    eapply sample_and_score_raises; [reflexivity | exact Hs].
Qed.

End Properties.
End AggregatorProperties.
(** ** More properties: [get_embeddings] *)

Module LoaderProperties.
Import Aggregator Vocabulary.
Import String.












Section Properties.
Context {G : Type} `{RandomState G} `{TorchFiles}.


End Properties.
End LoaderProperties.
(** ** More properties: the MST Persistence Scorer *)

Module ScorerProperties.
Import Scorer ScorerFacts Vocabulary.

Lemma classes_init (M : nat) : classes uf_init M = M.
Proof.
  unfold classes, uf_init. rewrite map_id.
  rewrite nodup_fixed_point by apply seq_NoDup. apply length_seq.
Qed.

Lemma classes_positive (c : uf) (M : nat) : (0 < M)%nat -> (0 < classes c M)%nat.
Proof.
  intros HM. unfold classes.
  assert (Hin : In (c 0%nat) (nodup Nat.eq_dec (map c (seq 0 M)))).
  { apply nodup_In, in_map, in_seq. lia. }
  destruct (nodup Nat.eq_dec (map c (seq 0 M))); [contradiction | cbn; lia].
Qed.

(** Joining two components leaves one fewer. *)
Lemma classes_union (c : uf) (M a b : nat) :
  (a < M)%nat -> (b < M)%nat -> c a <> c b ->
  classes c M = S (classes (uf_union c a b) M).
Proof.
  intros Ha Hb Hab. unfold classes.
  set (L := nodup Nat.eq_dec (map c (seq 0 M))).
  set (L' := nodup Nat.eq_dec (map (uf_union c a b) (seq 0 M))).
  change (length L = length (c a :: L')).
  apply Permutation_length, NoDup_Permutation.
  - apply NoDup_nodup.
  - constructor; [| apply NoDup_nodup].
    intros Hin. apply nodup_In, in_map_iff in Hin.
    destruct Hin as [v [Hv _]]. unfold uf_union in Hv. cbv zeta in Hv.
    destruct (Nat.eqb_spec (c v) (c a)); congruence.
  - intros l. unfold L, L'. cbn [In]. rewrite !nodup_In, !in_map_iff. split.
    + intros [v [<- Hv]].
      destruct (Nat.eq_dec (c v) (c a)) as [Heq | Hne]; [now left | right].
      exists v. split; [| exact Hv].
      unfold uf_union. cbv zeta.
      destruct (Nat.eqb_spec (c v) (c a)); congruence.
    + intros [<- | [v [<- Hv]]].
      * exists a. split; [reflexivity | apply in_seq; lia].
      * unfold uf_union. cbv zeta.
        destruct (Nat.eqb_spec (c v) (c a)).
        -- exists b. split; [reflexivity | apply in_seq; lia].
        -- exists v. auto.
Qed.

Lemma nodup_constant (a : nat) (l : list nat) :
  (forall x, In x l -> x = a) -> l <> [] ->
  length (nodup Nat.eq_dec l) = 1%nat.
Proof.
  induction l as [| x l IH]; intros Hall Hne; [congruence |].
  cbn [nodup]. destruct l as [| y l].
  - reflexivity.
  - destruct (in_dec Nat.eq_dec x (y :: l)) as [_ | Hnot].
    + apply IH; [| discriminate]. intros z Hz. apply Hall. now right.
    + exfalso. apply Hnot. left.
      rewrite (Hall x), (Hall y); cbn; auto.
Qed.

(** One component when every vertex bears the label of vertex 0. *)
Lemma classes_one (c : uf) (M : nat) :
  (0 < M)%nat -> (forall v, (v < M)%nat -> c v = c 0%nat) -> classes c M = 1%nat.
Proof.
  intros HM Hall. unfold classes. apply nodup_constant with (a := c 0%nat).
  - intros x Hx. apply in_map_iff in Hx. destruct Hx as [v [<- Hv]].
    apply Hall. apply in_seq in Hv. lia.
  - destruct M; [lia | discriminate].
Qed.

Section Tree.
Context {W : Type}.

(** Every kept entry takes one component away. *)
Lemma kruskal_length (M : nat) (l : list (@edge W)) :
  forall c : uf,
    (forall e, In e l -> (src e < M)%nat /\ (dst e < M)%nat) ->
    (length (kruskal c l) + classes (kruskal_state c l) M = classes c M)%nat.
Proof.
  induction l as [| e l IH]; intros c Hl; cbn [kruskal kruskal_state length];
    [reflexivity |].
  destruct (Hl e (or_introl eq_refl)) as [Hs Hd].
  assert (Hl' : forall f, In f l -> (src f < M)%nat /\ (dst f < M)%nat)
    by (intros f Hf; apply Hl; now right).
  destruct (Nat.eqb_spec (c (src e)) (c (dst e))) as [Heq | Hne].
  - now apply IH.
  - cbn [length]. rewrite (classes_union c Hs Hd Hne).
    rewrite <- (IH (uf_union c (src e) (dst e)) Hl'). lia.
Qed.

Lemma kruskal_state_keeps (l : list (@edge W)) :
  forall (c : uf) (u v : nat),
    c u = c v -> kruskal_state c l u = kruskal_state c l v.
Proof.
  induction l as [| e l IH]; intros c u v Huv; cbn [kruskal_state];
    [exact Huv |].
  destruct (Nat.eqb (c (src e)) (c (dst e))); apply IH; [exact Huv |].
  now apply uf_union_keeps.
Qed.

(** At the end the two ends of every entry are together. *)
Lemma kruskal_state_joins (l : list (@edge W)) :
  forall (c : uf) (e : edge),
    In e l -> kruskal_state c l (src e) = kruskal_state c l (dst e).
Proof.
  induction l as [| x l IH]; intros c e Hin; [contradiction |].
  cbn [kruskal_state]. destruct Hin as [-> | Hin].
  - destruct (Nat.eqb_spec (c (src e)) (c (dst e))) as [Heq | Hne].
    + now apply kruskal_state_keeps.
    + apply kruskal_state_keeps. unfold uf_union. cbv zeta.
      rewrite Nat.eqb_refl.
      destruct (Nat.eqb_spec (c (dst e)) (c (src e))); congruence.
  - destruct (Nat.eqb (c (src x)) (c (dst x))); now apply IH.
Qed.

(** No kept entry joins a vertex to itself. *)
Lemma kruskal_no_loop (l : list (@edge W)) :
  forall (c : uf) (e : edge), In e (kruskal c l) -> src e <> dst e.
Proof.
  induction l as [| x l IH]; intros c e; cbn [kruskal]; [tauto |].
  destruct (Nat.eqb_spec (c (src x)) (c (dst x))) as [Heq | Hne].
  - apply IH.
  - intros [<- | Hin]; [congruence | eapply IH, Hin].
Qed.

End Tree.

Section Properties.
Context {P W : Type} `{Weight W} `{Metric P W}.

Lemma in_minimum_spanning_tree (m : list (list W)) (e : edge) :
  In e (minimum_spanning_tree m) <->
  In e (kruskal uf_init (argsort (csr_entries m))).
Proof.
  split; intros Hin.
  - eapply Permutation_in; [apply minimum_spanning_tree_perm | exact Hin].
  - eapply Permutation_in;
      [symmetry; apply minimum_spanning_tree_perm | exact Hin].
Qed.

(** X11. Every entry of the tree that [compute_persistent_score] sums is
    the distance between two different rows of the input, and is not a
    null entry. *)
Theorem minimum_spanning_tree_entries (p : list P) (i j : nat) (w : W) :
  In (i, j, w) (minimum_spanning_tree (distance_matrix p p)) ->
  i <> j /\
  exists x y, nth_error p i = Some x /\ nth_error p j = Some y /\
              w = dist x y /\ wnull w = false.
Proof.
  intros Hin. apply in_minimum_spanning_tree in Hin. split.
  - apply kruskal_no_loop in Hin. exact Hin.
  - apply kruskal_incl in Hin.
    eapply Permutation_in in Hin; [| apply argsort_perm].
    now apply in_csr_entries_distance.
Qed.

(** X12. The tree of [M] rows has at most [M - 1] entries; it has
    exactly [M - 1], a spanning tree, when no two different rows are at
    a null distance. *)
Theorem minimum_spanning_tree_size (p : list P) :
  (length (minimum_spanning_tree (distance_matrix p p)) <= length p - 1)%nat /\
  ((forall i j x y, i <> j -> nth_error p i = Some x -> nth_error p j = Some y ->
                    wnull (dist x y) = false) ->
   length (minimum_spanning_tree (distance_matrix p p)) = (length p - 1)%nat).
Proof.
  rewrite (Permutation_length (minimum_spanning_tree_perm _)).
  set (L := argsort (csr_entries (distance_matrix p p))).
  assert (Hbound : forall e, In e L ->
                     (src e < length p)%nat /\ (dst e < length p)%nat).
  { intros [[i j] w] Hin.
    eapply Permutation_in in Hin; [| apply argsort_perm].
    apply in_csr_entries_distance in Hin.
    destruct Hin as [x [y [Hi [Hj _]]]].
    unfold src, dst. cbn [fst snd].
    split; apply nth_error_Some; congruence. }
  pose proof (@kruskal_length W (length p) L uf_init Hbound) as Hlen.
  rewrite classes_init in Hlen.
  destruct (Nat.eq_dec (length p) 0) as [Hzero | Hpos]; [lia |].
  pose proof (@classes_positive (kruskal_state uf_init L) (length p)
                ltac:(lia)) as Hcls.
  split; [lia |].
  intros Hfull.
  rewrite (@classes_one (kruskal_state uf_init L) (length p)) in Hlen; [lia | lia |].
  intros v Hv.
  destruct (Nat.eq_dec v 0) as [-> | Hv0]; [reflexivity |].
  destruct (nth_error p v) as [x |] eqn:Hx;
    [| apply nth_error_None in Hx; lia].
  destruct (nth_error p 0) as [y |] eqn:Hy;
    [| apply nth_error_None in Hy; lia].
  apply (@kruskal_state_joins W L uf_init (v, 0%nat, dist x y)).
  eapply Permutation_in; [symmetry; apply argsort_perm |].
  apply in_csr_entries_distance. exists x, y.
  repeat split; auto. exact (Hfull v 0%nat x y Hv0 Hx Hy).
Qed.

(** X13. For two rows the score is their distance, and zero when that
    distance is a null entry (two coincident rows). *)
Theorem compute_persistent_score_two_points (x y : P) :
  dist y x = dist x y ->
  compute_persistent_score [x; y]
  = if wnull (dist x y) then w0 else wadd w0 (dist x y).
Proof.
  intros Hsym.
  unfold compute_persistent_score, minimum_spanning_tree, distance_matrix,
    csr_entries, enumerate, csr_sum.
  cbn [map length seq combine flat_map fst snd app]. rewrite Hsym.
  destruct (wnull (dist x x)), (wnull (dist x y)), (wnull (dist y y));
    repeat first
      [ progress cbn [app argsort fold_right insert_edge weight snd]
      | match goal with
        | |- context [wleb ?a ?b] => destruct (wleb a b)
        end ];
    reflexivity.
Qed.

(** X14. Rows at a null distance are not joined by the tree: with two
    coincident rows [x], [x] and a third row [y] at distance [d], the
    score is [d + d], not [d]. *)
Theorem compute_persistent_score_coincident_rows (x y : P) :
  wnull (dist x x) = true -> wnull (dist y y) = true ->
  wnull (dist x y) = false -> dist y x = dist x y ->
  compute_persistent_score [x; x; y] = wadd (wadd w0 (dist x y)) (dist x y).
Proof.
  intros Hxx Hyy Hxy Hsym.
  unfold compute_persistent_score, minimum_spanning_tree, distance_matrix,
    csr_entries, enumerate, csr_sum.
  cbn [map length seq combine flat_map fst snd app].
  rewrite Hsym, Hxx, Hyy, Hxy.
  repeat first
    [ progress cbn [app argsort fold_right insert_edge weight snd]
    | match goal with
      | |- context [wleb ?a ?b] => destruct (wleb a b)
      end ];
    reflexivity.
Qed.

Section Exact.
Context {laws : @WeightLaws W _}.

(** X15. The score does not depend on how [np.argsort] orders entries
    of equal weight: Kruskal's loop run over any arrangement of the
    entries that is sorted by weight keeps entries of the same total. *)
Theorem compute_persistent_score_any_tie_order (p : list P) (L : list edge) :
  StronglySorted lew L ->
  Permutation L (csr_entries (distance_matrix p p)) ->
  csr_sum (kruskal uf_init L) = compute_persistent_score p.
Proof.
  intros Hs Hp. unfold compute_persistent_score. cbv zeta.
  rewrite (csr_sum_perm (minimum_spanning_tree_perm _)).
  unfold csr_sum. f_equal. now apply kruskal_tie_order.
Qed.

End Exact.

End Properties.
End ScorerProperties.
(** ** More properties: the Dimension Estimator *)

Module EstimatorProperties.
Import Estimator EstimatorFacts.

Section Properties.
Context `{Libm} `{Lstsq}.

(** A logarithm that is finite is the logarithm of a positive, finite
    number. *)
Lemma np_log_finite (x : float) :
  is_finite (np_log x) = true -> (0 <? x)%float = true /\ is_finite x = true.
Proof.
  unfold np_log, is_finite at 2.
  destruct (is_nan x) eqn:Hnan; [discriminate |].
  destruct (x <? 0)%float eqn:Hlt; [discriminate |].
  destruct (x =? 0)%float eqn:Hz; [discriminate |].
  destruct (x =? infinity)%float eqn:Hinf; [discriminate |].
  intros _. cbn [orb negb].
  unfold is_nan in Hnan. unfold is_infinity.
  rewrite eqb_spec in Hnan, Hz, Hinf |- *.
  rewrite ltb_spec in Hlt |- *. rewrite abs_spec.
  change (Prim2SF 0) with (S754_zero false) in *.
  change (Prim2SF infinity) with (S754_infinity false) in *.
  destruct (Prim2SF x) as [s | s | | s m e]; cbn in *;
    try discriminate; destruct s; cbn in *; try discriminate; auto.
Qed.

(** X16. [estimate_dimension] returns a dimension only from lists of
    one common length, not empty, in which every score is positive and
    finite; what it returns is then [1 / (1 - slope)] for the slope the
    regression fitted, with no check on that slope. *)
Theorem estimate_dimension_success (sizes : list Z) (scores : list float)
  (d : float) :
  estimate_dimension sizes scores = Ok d ->
  length sizes = length scores /\ sizes <> [] /\
  (forall s, In s scores -> (0 <? s)%float = true /\ is_finite s = true) /\
  d = dimension_of_slope
        (ols_slope (map np_log (map F64.of_Z sizes)) (map np_log scores)).
Proof.
  unfold estimate_dimension. intros Hrun.
  destruct (LinearRegression_fit _ _) as [slope | e] eqn:Hfit; [| discriminate].
  inversion Hrun; subst d. clear Hrun.
  unfold LinearRegression_fit in Hfit.
  destruct (F64.all_finite (map np_log (map F64.of_Z sizes))); [| discriminate].
  destruct (Nat.eqb_spec (length (map np_log (map F64.of_Z sizes))) 0)
    as [| Hne]; [discriminate |].
  destruct (F64.all_finite (map np_log scores)) eqn:Hy; [| discriminate].
  destruct (Nat.eqb_spec (length (map np_log (map F64.of_Z sizes)))
                         (length (map np_log scores))) as [Hlen |];
    [| discriminate].
  cbn in Hfit. inversion Hfit; subst slope.
  repeat rewrite length_map in Hlen. repeat rewrite length_map in Hne.
  split; [exact Hlen |]. split; [now destruct sizes |]. split; [| reflexivity].
  intros s Hs. apply np_log_finite.
  unfold F64.all_finite in Hy. rewrite forallb_forall in Hy.
  apply Hy, in_map, Hs.
Qed.

End Properties.
End EstimatorProperties.
(** ** The further properties at concrete inputs *)

Module Instances.
Import Demo Inputs Vocabulary.
Import Subsampler Scorer.
Import SubsamplerFacts ScorerFacts.
Import SubsamplerProperties AggregatorProperties LoaderProperties
  ScorerProperties EstimatorProperties.

Lemma sample_sizes_below_N_witness :
  (1 <= 8 /\ 40 < 1022 /\ In 899 (sample_sizes 1022 8 40)) /\
  40 <= 899 < 1022.
Proof.
  assert (Hin : In 899 (sample_sizes 1022 8 40)) by (vm_compute; tauto).
  split; [split; [lia | split; [lia | exact Hin]] |].
  apply (@sample_sizes_below_N 1022 8 40 899); [lia | lia | exact Hin].
Defined.

Lemma sample_and_score_aligned_witness :
  sample_and_score three_points 3 2 2 3 0%nat
  = (Ok ([2; 2], [2; 2]%float), 6%nat) /\
  (length [2; 2] = Z.to_nat 2 /\ length [2; 2]%float = Z.to_nat 2).
Proof.
  assert (Hrun : sample_and_score three_points 3 2 2 3 0%nat
                 = (Ok ([2; 2], [2; 2]%float), 6%nat))
    by (vm_compute; reflexivity).
  split; [exact Hrun |].
  exact (sample_and_score_aligned three_points 3 2 2 3 0%nat Hrun).
Defined.

Lemma sample_and_score_generator_steps_witness :
  sample_and_score three_points 3 2 2 3 0%nat
  = (Ok ([2; 2], [2; 2]%float), 6%nat) /\
  6%nat = Nat.iter (Z.to_nat 2 * Z.to_nat 3) (advance 3) 0%nat.
Proof.
  assert (Hrun : sample_and_score three_points 3 2 2 3 0%nat
                 = (Ok ([2; 2], [2; 2]%float), 6%nat))
    by (vm_compute; reflexivity).
  split; [exact Hrun |].
  exact (sample_and_score_generator_steps three_points 3 2 2 3 0%nat Hrun).
Defined.

Lemma sample_and_score_ignores_rows_past_n_witness :
  sample_and_score (firstn (Z.to_nat 2) three_points) 2 1 2 1 0%nat
  = sample_and_score three_points 2 1 2 1 0%nat.
Proof.
  exact (@sample_and_score_ignores_rows_past_n (list float) float nat _ _ _ _
           three_points 2 1 2 1 0%nat counter_rng_laws).
Defined.

Lemma sample_and_score_raises_iff_witness :
  3 = Z.of_nat (length three_points) /\
  (((1 <= 2 /\ 1 <= 1 /\
     exists s, In s (sample_sizes 3 2 4) /\ (s < 0 \/ 3 < s)) ->
    exists g', sample_and_score three_points 3 2 4 1 0%nat
               = (Raise ValueError, g')) /\
   ((2 < 1 \/ 1 < 1 \/
     forall s, In s (sample_sizes 3 2 4) -> 0 <= s <= 3) ->
    exists scores g',
      sample_and_score three_points 3 2 4 1 0%nat
      = (Ok (sample_sizes 3 2 4, scores), g'))).
Proof.
  split; [reflexivity |].
  exact (@sample_and_score_raises_iff (list float) float nat _ _ _ _
           three_points 3 2 4 1 0%nat counter_rng_laws eq_refl).
Defined.

Lemma estimate_sequence_dimension_load_error_witness :
  fst (Aggregator.get_embeddings padded_name emb_root world0) = Raise OSError /\
  Aggregator.estimate_sequence_dimension padded_name emb_root 5 world0
  = (Raise OSError,
     {| Aggregator.rng := 0%nat;
        Aggregator.loaded := [Aggregator.the_path padded_name emb_root];
        Aggregator.stdout := [] |}).
Proof.
  split; [reflexivity |].
  exact (@estimate_sequence_dimension_load_error nat _ _ _ _
           padded_name emb_root 5 world0 OSError eq_refl).
Defined.

Lemma estimate_sequence_dimension_too_few_rows_witness :
  (fst (@Aggregator.get_embeddings nat short_file int_name_A emb_root world0)
   = Ok short_tensor /\ (length short_tensor < 40)%nat /\ 1 <= 5) /\
  @Aggregator.estimate_sequence_dimension nat _ _ _ short_file
    int_name_A emb_root 5 world0
  = (Raise ValueError,
     {| Aggregator.rng := 0%nat;
        Aggregator.loaded := [path_A];
        Aggregator.stdout := [39] |}).
Proof.
  assert (Hfew : (length short_tensor < 40)%nat) by (vm_compute; lia).
  split; [split; [reflexivity | split; [exact Hfew | lia]] |].
  exact (@estimate_sequence_dimension_too_few_rows nat _ _ _ short_file
           int_name_A emb_root 5 world0 short_tensor eq_refl Hfew ltac:(lia)).
Defined.

Lemma estimate_sequence_dimension_no_runs_witness :
  (fst (Aggregator.get_embeddings int_name_A emb_root world0)
   = Ok squares_tensor /\ 0 <= 0) /\
  Aggregator.estimate_sequence_dimension int_name_A emb_root 0 world0
  = (Ok nan,
     {| Aggregator.rng := 0%nat;
        Aggregator.loaded := [path_A];
        Aggregator.stdout := [45] |}).
Proof.
  split; [split; [reflexivity | lia] |].
  exact (@estimate_sequence_dimension_no_runs nat _ _ _ _
           int_name_A emb_root 0 world0 squares_tensor eq_refl ltac:(lia)).
Defined.

Lemma estimate_sequence_dimension_only_ValueError_witness :
  (fst (@Aggregator.get_embeddings nat short_file int_name_A emb_root world0)
   = Ok short_tensor /\
   @Aggregator.estimate_sequence_dimension nat _ _ _ short_file
     int_name_A emb_root 1 world0
   = (Raise ValueError,
      {| Aggregator.rng := 0%nat;
         Aggregator.loaded := [path_A];
         Aggregator.stdout := [39] |})) /\
  ValueError = ValueError.
Proof.
  assert (Hrun : @Aggregator.estimate_sequence_dimension nat _ _ _ short_file
                   int_name_A emb_root 1 world0
                 = (Raise ValueError,
                    {| Aggregator.rng := 0%nat;
                       Aggregator.loaded := [path_A];
                       Aggregator.stdout := [39] |}))
    by (vm_compute; reflexivity).
  split; [split; [reflexivity | exact Hrun] |].
  exact (@estimate_sequence_dimension_only_ValueError nat _ _ _ short_file
           int_name_A emb_root 1 world0 _ short_tensor ValueError
           counter_rng_laws eq_refl Hrun).
Defined.


Lemma minimum_spanning_tree_entries_witness :
  In (3%nat, 4%nat, 4)
     (minimum_spanning_tree (distance_matrix [0; 1; 2; 3; 7] [0; 1; 2; 3; 7])) /\
  (3%nat <> 4%nat /\
   exists x y, nth_error [0; 1; 2; 3; 7] 3 = Some x /\
               nth_error [0; 1; 2; 3; 7] 4 = Some y /\
               4 = dist x y /\ wnull 4 = false).
Proof.
  assert (Hin : In (3%nat, 4%nat, 4)
                  (minimum_spanning_tree
                     (distance_matrix [0; 1; 2; 3; 7] [0; 1; 2; 3; 7])))
    by (vm_compute; tauto).
  split; [exact Hin |].
  exact (@minimum_spanning_tree_entries Z Z _ _ [0; 1; 2; 3; 7] 3 4 4 Hin).
Defined.

Lemma compute_persistent_score_two_points_witness :
  dist 5 0 = dist 0 5 /\
  compute_persistent_score [0; 5]
  = if wnull (dist 0 5) then w0 else wadd w0 (dist 0 5).
Proof.
  split; [reflexivity |].
  exact (@compute_persistent_score_two_points Z Z _ _ 0 5 eq_refl).
Defined.

Lemma compute_persistent_score_coincident_rows_witness :
  (wnull (dist 0 0) = true /\ wnull (dist 5 5) = true /\
   wnull (dist 0 5) = false /\ dist 5 0 = dist 0 5) /\
  compute_persistent_score [0; 0; 5] = wadd (wadd w0 (dist 0 5)) (dist 0 5).
Proof.
  split; [split; [| split; [| split]]; reflexivity |].
  exact (@compute_persistent_score_coincident_rows Z Z _ _ 0 5
           eq_refl eq_refl eq_refl eq_refl).
Defined.

Lemma compute_persistent_score_any_tie_order_witness :
  (StronglySorted lew lower_first /\
   Permutation lower_first (csr_entries (distance_matrix [0; 1; 3] [0; 1; 3]))) /\
  csr_sum (kruskal uf_init lower_first) = compute_persistent_score [0; 1; 3].
Proof.
  assert (Hs : StronglySorted lew lower_first).
  { unfold lower_first. repeat constructor. }
  assert (Hp : Permutation lower_first
                 (csr_entries (distance_matrix [0; 1; 3] [0; 1; 3]))).
  { change (csr_entries (distance_matrix [0; 1; 3] [0; 1; 3]))
      with [(0%nat, 1%nat, 1); (0%nat, 2%nat, 3); (1%nat, 0%nat, 1);
            (1%nat, 2%nat, 2); (2%nat, 0%nat, 3); (2%nat, 1%nat, 2)].
    unfold lower_first.
    apply (Permutation_cons_app
             [(0%nat, 1%nat, 1); (0%nat, 2%nat, 3)]
             [(1%nat, 2%nat, 2); (2%nat, 0%nat, 3); (2%nat, 1%nat, 2)]).
    cbn [app]. apply perm_skip.
    apply (Permutation_cons_app
             [(0%nat, 2%nat, 3); (1%nat, 2%nat, 2); (2%nat, 0%nat, 3)] []).
    cbn [app].
    apply (Permutation_cons_app [(0%nat, 2%nat, 3)] [(2%nat, 0%nat, 3)]).
    cbn [app]. apply perm_swap. }
  split; [split; [exact Hs | exact Hp] |].
  exact (@compute_persistent_score_any_tie_order Z Z _ _ Z_weight_laws
           [0; 1; 3] lower_first Hs Hp).
Defined.

Lemma estimate_dimension_success_witness :
  Estimator.estimate_dimension four_sizes
    (map (fun n => PrimFloat.sqrt (F64.of_Z n)) four_sizes) = Ok 2%float /\
  (length four_sizes
   = length (map (fun n => PrimFloat.sqrt (F64.of_Z n)) four_sizes) /\
   four_sizes <> [] /\
   (forall s, In s (map (fun n => PrimFloat.sqrt (F64.of_Z n)) four_sizes) ->
              (0 <? s)%float = true /\ is_finite s = true) /\
   2%float
   = Estimator.dimension_of_slope
       (ols_slope
          (map Estimator.np_log (map F64.of_Z four_sizes))
          (map Estimator.np_log
             (map (fun n => PrimFloat.sqrt (F64.of_Z n)) four_sizes)))).
Proof.
  assert (Hrun : Estimator.estimate_dimension four_sizes
                   (map (fun n => PrimFloat.sqrt (F64.of_Z n)) four_sizes)
                 = Ok 2%float) by (vm_compute; reflexivity).
  split; [exact Hrun |].
  exact (@estimate_dimension_success _ _ four_sizes _ 2%float Hrun).
Defined.

End Instances.
